(** * TimeTaskTracker: notification scheduler and task routes

    A shallow embedding of
    - [client/src/lib/notifications.ts] (class [NotificationService]),
    - the storage layer [DatabaseStorage] and the express routes
      [registerRoutes], together with the zod schema [insertTaskSchema].

    The browser is modelled as explicit state: the value of
    [Notification.permission], the wall clock, the table of pending one-shot
    timers of [window.setTimeout] and the notifications created so far.
    Instants and delays are integral milliseconds, so the JavaScript numbers
    involved are exact integers and are modelled in [Z]. *)

From Stdlib Require Import ZArith Lia Sorting.Sorted Sorting.Permutation.
From Stdlib Require QArith.
From stdpp Require Import base gmap strings pretty list.

Open Scope Z_scope.

(** ** Data model *)

(** [Notification.permission]. *)
Inductive Permission := granted | denied | default.

Global Instance Permission_eq_dec : EqDecision Permission.
Proof. solve_decision. Defined.

(** A row of the [tasks] table ([Task = typeof tasks.$inferSelect]).
    [scheduledDate] and [createdAt] are the time values ([getTime()]) of the
    stored timestamps; the columns are [notNull] timestamps, hence valid
    dates. *)
Record Task := mkTask {
  task_id : Z;
  task_title : string;
  task_scheduledDate : Z;
  task_priority : string;
  task_category : string;
  task_completed : bool;
  task_createdAt : Z;
}.

(** Keys of [scheduledNotifications : Map<number | string, number>]. *)
Definition key : Type := Z + string.

(** The due-now alert is stored under [task.id]. *)
Definition taskKey (taskId : Z) : key := inl taskId.

(** The reminder is stored under the template string
    [`${task.id}-reminder`]. *)
Definition reminderKey (taskId : Z) : key := inr (pretty taskId +:+ "-reminder").

(** What a pending timer runs when it fires. *)
Inductive Callback :=
  | CbReminder (task : Task)   (* () => this.showReminderNotification(task) *)
  | CbExact (task : Task)      (* () => { show...; scheduledNotifications.delete(task.id) } *)
  | CbClose (n : nat).         (* () => notification.close() *)

(** A platform notification, as far as the scheduler sets it up. *)
Record Notif := mkNotif {
  notif_tag : string;
  notif_requireInteraction : bool;
  notif_open : bool;
}.

(** The service instance together with the browser it runs in. *)
Record World := mkWorld {
  (* NotificationService *)
  permissionGranted : bool;
  scheduledNotifications : gmap key Z;
  (* window *)
  platformPermission : option Permission; (* None: no "Notification" in window *)
  clock : Z;                              (* new Date().getTime() *)
  timers : gmap Z (Z * Callback);         (* handle -> (due instant, callback) *)
  nextHandle : Z;                         (* handle of the next setTimeout *)
  ctorThrows : bool;                      (* does [new Notification] throw? *)
  notifications : list Notif;
}.

(** Result of running code that may throw. *)
Inductive Outcome (A : Type) :=
  | Ok (a : A) (w : World)
  | Throw (w : World).
Arguments Ok {A} a w.
Arguments Throw {A} w.

Definition worldOf {A} (o : Outcome A) : World :=
  match o with Ok _ w => w | Throw w => w end.

Definition threw {A} (o : Outcome A) : bool :=
  match o with Ok _ _ => false | Throw _ => true end.

(** ** Field updates *)

Definition set_permissionGranted (b : bool) (w : World) : World :=
  mkWorld b (scheduledNotifications w) (platformPermission w) (clock w)
          (timers w) (nextHandle w) (ctorThrows w) (notifications w).

Definition set_scheduledNotifications (m : gmap key Z) (w : World) : World :=
  mkWorld (permissionGranted w) m (platformPermission w) (clock w)
          (timers w) (nextHandle w) (ctorThrows w) (notifications w).

Definition set_platformPermission (p : option Permission) (w : World) : World :=
  mkWorld (permissionGranted w) (scheduledNotifications w) p (clock w)
          (timers w) (nextHandle w) (ctorThrows w) (notifications w).

Definition set_clock (t : Z) (w : World) : World :=
  mkWorld (permissionGranted w) (scheduledNotifications w) (platformPermission w) t
          (timers w) (nextHandle w) (ctorThrows w) (notifications w).

Definition set_timers (ts : gmap Z (Z * Callback)) (w : World) : World :=
  mkWorld (permissionGranted w) (scheduledNotifications w) (platformPermission w) (clock w)
          ts (nextHandle w) (ctorThrows w) (notifications w).

Definition set_ctorThrows (b : bool) (w : World) : World :=
  mkWorld (permissionGranted w) (scheduledNotifications w) (platformPermission w) (clock w)
          (timers w) (nextHandle w) b (notifications w).

Definition set_notifications (ns : list Notif) (w : World) : World :=
  mkWorld (permissionGranted w) (scheduledNotifications w) (platformPermission w) (clock w)
          (timers w) (nextHandle w) (ctorThrows w) ns.

(** ** Browser primitives *)

(** Conversion of a number to the 32-bit signed [long] of Web IDL. *)
Definition toInt32 (x : Z) : Z :=
  let m := x mod 2 ^ 32 in
  if 2 ^ 31 <=? m then m - 2 ^ 32 else m.

(** The delay a timer really gets: the argument of [setTimeout] is a
    [long], and a negative timeout counts as [0]. *)
Definition timerDelay (delay : Z) : Z := Z.max (toInt32 delay) 0.

(** [window.setTimeout(cb, delay)]: registers a one-shot timer due
    [timerDelay delay] milliseconds from now and returns its handle.
    Handles are positive and never reused. *)
Definition setTimeout (cb : Callback) (delay : Z) (w : World) : Z * World :=
  (nextHandle w,
   mkWorld (permissionGranted w) (scheduledNotifications w) (platformPermission w)
           (clock w) (<[nextHandle w := (clock w + timerDelay delay, cb)]> (timers w))
           (nextHandle w + 1) (ctorThrows w) (notifications w)).

(** [clearTimeout(handle)]: cancels the timer if it is still pending. *)
Definition clearTimeout (h : Z) (w : World) : World :=
  set_timers (delete h (timers w)) w.

(** ** NotificationService *)

(** [checkPermission()] *)
Definition checkPermission (w : World) : World :=
  match platformPermission w with
  | Some p => set_permissionGranted (bool_decide (p = granted)) w
  | None => w
  end.

(** [constructor()]: a fresh service in a given browser. *)
Definition construct (p : option Permission) (now : Z) (throws : bool) : World :=
  checkPermission (mkWorld false ∅ p now ∅ 1 throws []).

(** [refreshPermissionStatus()] *)
Definition refreshPermissionStatus (w : World) : bool * World :=
  let w' := checkPermission w in (permissionGranted w', w').

(** [requestPermission()] up to its [await]: either it returns at once, or
    it is suspended on the platform prompt. *)
Inductive Requested :=
  | Returned (b : bool) (w : World)
  | Prompting (w : World).

Definition requestPermission (w : World) : Requested :=
  match platformPermission w with
  | None => Returned false w
  | Some granted => Returned true (set_permissionGranted true w)
  | Some denied => Returned false w
  | Some default => Prompting w
  end.

(** The prompt settles: the platform records the user's choice and the
    promise resolves with it ([Some p]) or rejects ([None]). *)
Definition promptSettles (reply : option Permission) (w : World) : World :=
  match reply, platformPermission w with
  | Some p, Some _ => set_platformPermission (Some p) w
  | _, _ => w
  end.

(** The rest of [requestPermission()] after the [await], run on the world
    in which the prompt settled. *)
Definition requestPermission_resume (reply : option Permission) (w : World) : bool * World :=
  match reply with
  | Some p =>
      let w1 := set_permissionGranted (bool_decide (p = granted)) w in
      let w2 := checkPermission w1 in
      (permissionGranted w2, w2)
  | None => (false, w)
  end.

(** [clearNotification(taskId)].  [if (timeoutId)] holds for a handle other
    than [0]. *)
Definition clearEntry (k : key) (w : World) : World :=
  match scheduledNotifications w !! k with
  | Some h =>
      if bool_decide (h ≠ 0)
      then set_scheduledNotifications (delete k (scheduledNotifications w))
             (clearTimeout h w)
      else w
  | None => w
  end.

Definition clearNotification (taskId : Z) (w : World) : World :=
  clearEntry (reminderKey taskId) (clearEntry (taskKey taskId) w).

(** [scheduleNotification(task)] *)
Definition scheduleNotification (task : Task) (w : World) : World :=
  if negb (permissionGranted w) then w else
  let w1 := clearNotification (task_id task) w in
  let timeDiff := task_scheduledDate task - clock w1 in
  if timeDiff <? 0 then w1 else
  let reminderTime := Z.max (timeDiff - 5 * 60 * 1000) 0 in
  let w2 :=
    if 0 <? reminderTime then
      let '(reminderTimeoutId, w') := setTimeout (CbReminder task) reminderTime w1 in
      set_scheduledNotifications
        (<[reminderKey (task_id task) := reminderTimeoutId]> (scheduledNotifications w')) w'
    else w1 in
  let '(exactTimeoutId, w3) := setTimeout (CbExact task) timeDiff w2 in
  set_scheduledNotifications
    (<[taskKey (task_id task) := exactTimeoutId]> (scheduledNotifications w3)) w3.

(** [new Notification(title, options)]: throws when the platform refuses the
    constructor; otherwise the notification is appended and its index
    returned. *)
Definition newNotification (tag : string) (requireInteraction : bool) (w : World) : Outcome nat :=
  if ctorThrows w then Throw w
  else Ok (length (notifications w))
          (set_notifications (notifications w ++ [mkNotif tag requireInteraction true]) w).

(** [notification.close()] *)
Definition closeNotification (n : nat) (w : World) : World :=
  set_notifications
    (alter (λ x, mkNotif (notif_tag x) (notif_requireInteraction x) false) n (notifications w)) w.

(** [playNotificationSound()]: its body is wrapped in [try]/[catch], so it
    never throws; audio is not part of the state. *)
Definition playNotificationSound (w : World) : World := w.

(** [showReminderNotification(task)] *)
Definition showReminderNotification (task : Task) (w : World) : Outcome unit :=
  if negb (permissionGranted w) then Ok tt w else
  match newNotification ("task-" +:+ pretty (task_id task) +:+ "-reminder") false w with
  | Throw w' => Throw w'
  | Ok n w1 =>
      let w2 := playNotificationSound w1 in
      Ok tt (snd (setTimeout (CbClose n) 10000 w2))
  end.

(** [showExactTimeNotification(task)] *)
Definition showExactTimeNotification (task : Task) (w : World) : Outcome unit :=
  if negb (permissionGranted w) then Ok tt w else
  match newNotification ("task-" +:+ pretty (task_id task) +:+ "-due") true w with
  | Throw w' => Throw w'
  | Ok n w1 =>
      let w2 := playNotificationSound w1 in
      Ok tt (snd (setTimeout (CbClose n) 20000 w2))
  end.

(** [clearAllNotifications()] *)
Definition clearAllNotifications (w : World) : World :=
  set_scheduledNotifications ∅
    (map_fold (λ _ timeoutId acc, clearTimeout timeoutId acc) w (scheduledNotifications w)).

(** [get hasPermission()] *)
Definition hasPermission (w : World) : bool := permissionGranted w.

(** [getScheduledNotificationCount()] *)
Definition getScheduledNotificationCount (w : World) : nat :=
  size (scheduledNotifications w).

(** [Map.prototype.has] *)
Definition has (k : key) (m : gmap key Z) : bool := bool_decide (is_Some (m !! k)).

(** [isTaskScheduled(taskId)] *)
Definition isTaskScheduled (taskId : Z) (w : World) : bool :=
  has (taskKey taskId) (scheduledNotifications w)
  || has (reminderKey taskId) (scheduledNotifications w).

(** [testDesktopNotification()], the synchronous part.  The first read of
    [Notification.permission] sits before the [try], so a browser without the
    API throws there. *)
Definition testDesktopNotification (w : World) : Outcome bool :=
  match platformPermission w with
  | None => Throw w
  | Some denied => Ok false w
  | Some default => Ok false w          (* a prompt is issued; see below *)
  | Some granted =>
      match newNotification "test-notification" false w with
      | Throw w' => Ok false w'         (* caught, logged, alert shown *)
      | Ok n w1 =>
          let w2 := playNotificationSound w1 in
          let w3 := snd (setTimeout (CbClose n) 5000 w2) in
          Ok true (set_permissionGranted true w3)
      end
  end.

(** The [.then] handler of the prompt issued by [testDesktopNotification()]:
    on a grant the test is run again and its result dropped. *)
Definition testDesktopNotification_then (reply : Permission) (w : World) : Outcome unit :=
  if bool_decide (reply = granted)
  then match testDesktopNotification w with
       | Ok _ w' => Ok tt w'
       | Throw w' => Throw w'
       end
  else Ok tt w.

(** ** The event queue *)

(** Body of a timer callback. *)
Definition runCallback (cb : Callback) (w : World) : Outcome unit :=
  match cb with
  | CbReminder task => showReminderNotification task w
  | CbExact task =>
      match showExactTimeNotification task w with
      | Ok _ w' =>
          Ok tt (set_scheduledNotifications
                   (delete (taskKey (task_id task)) (scheduledNotifications w')) w')
      | Throw w' => Throw w'
      end
  | CbClose n => Ok tt (closeNotification n w)
  end.

(** The timer [h] fires: it leaves the table of pending timers and its
    callback runs.  An exception leaving the callback ends that callback
    only. *)
Definition fireTimer (h : Z) (w : World) : Outcome unit :=
  match timers w !! h with
  | Some (_, cb) => runCallback cb (clearTimeout h w)
  | None => Ok tt w
  end.

(** A timer may fire once it is due and no pending timer is due strictly
    earlier. *)
Definition mayFire (h : Z) (w : World) : Prop :=
  match timers w !! h with
  | Some (due, _) => due ≤ clock w ∧ map_Forall (λ _ v, due ≤ fst v) (timers w)
  | None => False
  end.

Global Instance mayFire_dec h w : Decision (mayFire h w).
Proof. unfold mayFire. destruct (timers w !! h) as [[due cb]|]; apply _. Defined.

(** Things that happen to a running service: calls of its public methods,
    settled prompts, timers firing, time passing, and the user changing the
    site permission in the browser settings. *)
Inductive Event :=
  | EvRefresh
  | EvRequestPermission
  | EvPromptSettles (reply : option Permission)
  | EvSchedule (task : Task)
  | EvClear (taskId : Z)
  | EvClearAll
  | EvTest
  | EvTestThen (reply : Permission)
  | EvFire (h : Z)
  | EvTick (t : Z)
  | EvSettings (p : Permission)
  | EvCtor (throws : bool).

Definition requestedWorld (r : Requested) : World :=
  match r with Returned _ w => w | Prompting w => w end.

Definition step (e : Event) (w : World) : World :=
  match e with
  | EvRefresh => snd (refreshPermissionStatus w)
  | EvRequestPermission => requestedWorld (requestPermission w)
  | EvPromptSettles reply => snd (requestPermission_resume reply (promptSettles reply w))
  | EvSchedule task => scheduleNotification task w
  | EvClear taskId => clearNotification taskId w
  | EvClearAll => clearAllNotifications w
  | EvTest => worldOf (testDesktopNotification w)
  | EvTestThen reply => worldOf (testDesktopNotification_then reply (promptSettles (Some reply) w))
  | EvFire h => worldOf (fireTimer h w)
  | EvTick t => set_clock t w
  | EvSettings p => promptSettles (Some p) w
  | EvCtor throws => set_ctorThrows throws w
  end.

Definition enabled (e : Event) (w : World) : Prop :=
  match e with
  | EvFire h => mayFire h w
  | EvTick t => clock w ≤ t
  | _ => True
  end.

Global Instance enabled_dec e w : Decision (enabled e w).
Proof. destruct e; simpl; apply _. Defined.

(** The states a service can be in. *)
Inductive reachable : World → Prop :=
  | reach_construct p now throws : reachable (construct p now throws)
  | reach_step e w : reachable w → enabled e w → reachable (step e w).

(** ** Counting what is pending for a task *)

(** Entries of [scheduledNotifications] under the two keys of a task. *)
Definition pendingEntries (taskId : Z) (w : World) : nat :=
  (if has (taskKey taskId) (scheduledNotifications w) then 1 else 0)
  + (if has (reminderKey taskId) (scheduledNotifications w) then 1 else 0).

(** The key under which the service records the timer of a callback. *)
Definition cbKey (cb : Callback) : option key :=
  match cb with
  | CbReminder t => Some (reminderKey (task_id t))
  | CbExact t => Some (taskKey (task_id t))
  | CbClose _ => None
  end.

(** The task an alert callback is about. *)
Definition cbTaskId (cb : Callback) : option Z :=
  match cb with
  | CbReminder t | CbExact t => Some (task_id t)
  | CbClose _ => None
  end.

(** Pending alert timers of a task in the browser's timer table. *)
Definition pendingTimers (taskId : Z) (w : World) : nat :=
  size (filter (λ hv, cbTaskId (snd (snd hv)) = Some taskId) (timers w)).

(** ** Invariant of the scheduler *)

(** Handles are positive and below the allocator; every pending alert timer
    is recorded in [scheduledNotifications] under its key. *)
Record Inv (w : World) : Prop := mkInv {
  inv_next : 0 < nextHandle w;
  inv_map : ∀ k h, scheduledNotifications w !! k = Some h → 0 < h < nextHandle w;
  inv_timers : ∀ h v, timers w !! h = Some v → 0 < h < nextHandle w;
  inv_owned : ∀ h d cb k,
    timers w !! h = Some (d, cb) → cbKey cb = Some k →
    scheduledNotifications w !! k = Some h;
}.

(** Two worlds that agree on the scheduler's bookkeeping. *)
Definition sameBooks (w w' : World) : Prop :=
  scheduledNotifications w' = scheduledNotifications w
  ∧ timers w' = timers w
  ∧ nextHandle w' = nextHandle w.

(** Arming an alert: a fresh timer recorded under a key that is free. *)
Definition arm (cb : Callback) (k : key) (delay : Z) (w : World) : World :=
  let '(h, w') := setTimeout cb delay w in
  set_scheduledNotifications (<[k := h]> (scheduledNotifications w')) w'.

(** What showing a notification may do to the bookkeeping: the map is
    untouched and no alert timer is added. *)
Definition quiet (w w' : World) : Prop :=
  scheduledNotifications w' = scheduledNotifications w
  ∧ (Inv w → Inv w')
  ∧ ∀ h d cb k, timers w' !! h = Some (d, cb) → cbKey cb = Some k →
                timers w !! h = Some (d, cb).

(** The handle recorded under a key, as a set. *)
Definition recorded (k : key) (m : gmap key Z) : gset Z :=
  match m !! k with Some h => {[h]} | None => ∅ end.

(** * Server: schema, storage and routes *)

(** ** Request bodies *)

(** A parsed JSON value, as [req.body] holds it. *)
#[local] Unset Elimination Schemes.
Inductive Json :=
  | JNull
  | JBool (b : bool)
  | JNum (n : Z)
  | JStr (s : string)
  | JArr (items : list Json)
  | JObj (fields : list (string * Json)).
#[local] Set Elimination Schemes.

(** Property access [obj[name]]; [None] is [undefined]. *)
Fixpoint getProp (name : string) (fields : list (string * Json)) : option Json :=
  match fields with
  | [] => None
  | (k, v) :: rest => if String.eqb k name then Some v else getProp name rest
  end.

(** [new Date(str).getTime()]; [None] is an invalid date. *)
Class DateParser := Date_parse : string → option Z.

(** ** [insertTaskSchema] *)

Inductive IssueCode := invalid_type | too_small.

Record ZodIssue := mkIssue {
  issue_code : IssueCode;
  issue_path : list string;
  issue_message : string;
}.

(** [InsertTask = z.infer<typeof insertTaskSchema>] *)
Record InsertTask := mkInsertTask {
  insert_title : string;
  insert_scheduledDate : option Z;   (* a Date; None when invalid *)
  insert_priority : string;
  insert_category : string;
}.

(** zod's name for the type of a value. *)
Definition receivedType (v : option Json) : string :=
  match v with
  | None => "undefined"
  | Some JNull => "null"
  | Some (JBool _) => "boolean"
  | Some (JNum _) => "number"
  | Some (JStr _) => "string"
  | Some (JArr _) => "array"
  | Some (JObj _) => "object"
  end.

Definition invalidType (expected : string) (path : list string) (v : option Json) : ZodIssue :=
  mkIssue invalid_type path
    (match v with
     | None => "Required"
     | _ => "Expected " +:+ expected +:+ ", received " +:+ receivedType v
     end).

(** [z.string()] at a property. *)
Definition zString (path : list string) (v : option Json) : list ZodIssue + string :=
  match v with
  | Some (JStr s) => inr s
  | _ => inl [invalidType "string" path v]
  end.

(** [z.string().min(1, msg)] *)
Definition zStringMin1 (msg : string) (path : list string) (v : option Json)
  : list ZodIssue + string :=
  match zString path v with
  | inr s => if (String.length s <? 1)%nat then inl [mkIssue too_small path msg] else inr s
  | inl issues => inl issues
  end.

(** [z.string().transform(str => new Date(str))] *)
Definition zDateString `{DateParser} (path : list string) (v : option Json)
  : list ZodIssue + option Z :=
  match zString path v with
  | inr s => inr (Date_parse s)
  | inl issues => inl issues
  end.

(** [z.string().default(d)] *)
Definition zStringDefault (d : string) (path : list string) (v : option Json)
  : list ZodIssue + string :=
  match v with
  | None => inr d
  | _ => zString path v
  end.

Definition issuesOf {A} (r : list ZodIssue + A) : list ZodIssue :=
  match r with inl issues => issues | inr _ => [] end.

(** [insertTaskSchema.parse(body)]: [inl issues] stands for the thrown
    [ZodError]; every property is checked and the issues are collected. *)
Definition insertTaskSchema_parse `{DateParser} (body : option Json)
  : list ZodIssue + InsertTask :=
  match body with
  | Some (JObj fields) =>
      let title := zStringMin1 "Title is required" ["title"] (getProp "title" fields) in
      let scheduledDate := zDateString ["scheduledDate"] (getProp "scheduledDate" fields) in
      let priority := zStringDefault "medium" ["priority"] (getProp "priority" fields) in
      let category := zStringDefault "personal" ["category"] (getProp "category" fields) in
      match title, scheduledDate, priority, category with
      | inr t, inr d, inr p, inr c => inr (mkInsertTask t d p c)
      | _, _, _, _ =>
          inl (issuesOf title ++ issuesOf scheduledDate
               ++ issuesOf priority ++ issuesOf category)
      end
  | _ => inl [invalidType "object" [] body]
  end.

(** ** [DatabaseStorage] *)

(** The [tasks] table behind [db]: its rows, the [serial] counter of [id],
    the database clock of [defaultNow()], and whether queries go through. *)
Record Db := mkDb {
  db_rows : list Task;
  db_serial : Z;
  db_now : Z;
  db_online : bool;
}.

(** [value || fallback] on strings: the empty string is falsy. *)
Definition orElse (value fallback : string) : string :=
  if String.eqb value "" then fallback else value.

(** Range of the [integer] type of the [id] column. *)
Definition isInt4 (n : Z) : bool :=
  (-2147483648 <=? n) && (n <=? 2147483647).

(** The instants the timestamp column takes from [toISOString()]: those
    written with a four-digit year from 0001 to 9999. *)
Definition isTimestamp (t : Z) : bool :=
  (-62135596800000 <=? t) && (t <=? 253402300799999).

(** A [text] value cannot hold the zero character. *)
Fixpoint isText (s : string) : bool :=
  match s with
  | EmptyString => true
  | String c rest => negb (Ascii.eqb c Ascii.zero) && isText rest
  end.

(** [createTask(insertTask)]; [None] when the insert throws: database
    unreachable, an invalid date or one outside what the timestamp column
    reads, a text with a zero character, or the [serial] counter past the
    range of [integer]. *)
Definition createTask (insertTask : InsertTask) (db : Db) : option (Task * Db) :=
  if negb (db_online db) then None else
  match insert_scheduledDate insertTask with
  | None => None
  | Some scheduledDate =>
      let task := mkTask (db_serial db) (insert_title insertTask) scheduledDate
                    (orElse (insert_priority insertTask) "medium")
                    (orElse (insert_category insertTask) "personal")
                    false (db_now db) in
      if isInt4 (task_id task) && isTimestamp scheduledDate
         && isText (task_title task) && isText (task_priority task)
         && isText (task_category task)
      then Some (task, mkDb (db_rows db ++ [task]) (db_serial db + 1)
                            (db_now db) (db_online db))
      else None
  end.

(** [Array.prototype.sort(compareFn)] for a consistent comparator: the
    stable sort, here by insertion from the right. *)
Fixpoint sortInsert (compareFn : Task → Task → Z) (x : Task) (l : list Task) : list Task :=
  match l with
  | [] => [x]
  | y :: rest =>
      if 0 <? compareFn x y then y :: sortInsert compareFn x rest else x :: l
  end.

Definition Array_sort (compareFn : Task → Task → Z) (l : list Task) : list Task :=
  foldr (sortInsert compareFn) [] l.

(** [(a, b) => new Date(a.scheduledDate).getTime() - new Date(b.scheduledDate).getTime()] *)
Definition byScheduledDate (a b : Task) : Z :=
  task_scheduledDate a - task_scheduledDate b.

(** [getTasks()]; [None] when the query throws. *)
Definition getTasks (db : Db) : option (list Task) :=
  if negb (db_online db) then None
  else Some (Array_sort byScheduledDate (db_rows db)).

(** ** Routes *)

Inductive ResponseBody :=
  | SendTasks (tasks : list Task)
  | SendTask (task : Task)
  | SendError (error : string) (details : option (list ZodIssue))
  | SendNothing.

Record Response := mkResponse {
  res_status : Z;
  res_body : ResponseBody;
}.

(** [app.get("/api/tasks", ...)] *)
Definition getTasksRoute (db : Db) : Response :=
  match getTasks db with
  | Some tasks => mkResponse 200 (SendTasks tasks)
  | None => mkResponse 500 (SendError "Failed to fetch tasks" None)
  end.

(** [app.post("/api/tasks", ...)] *)
Definition postTasksRoute `{DateParser} (reqBody : option Json) (db : Db) : Response * Db :=
  match insertTaskSchema_parse reqBody with
  | inl issues => (mkResponse 400 (SendError "Invalid task data" (Some issues)), db)
  | inr validatedData =>
      match createTask validatedData db with
      | Some (task, db') => (mkResponse 201 (SendTask task), db')
      | None => (mkResponse 500 (SendError "Failed to create task" None), db)
      end
  end.

(** Ascending by [scheduledDate]. *)
Definition ascending (tasks : list Task) : Prop :=
  StronglySorted (λ a b, task_scheduledDate a ≤ task_scheduledDate b) tasks.

(** ** Concrete scenarios *)

Module Scenario.

(** A task due ten minutes after the service starts. *)
Definition task1 : Task := mkTask 1 "Write report" 600000 "high" "work" false 0.


(** A browser in which notifications are already allowed. *)
Definition start : World := construct (Some granted) 0 false.

Definition scheduled : World := step (EvSchedule task1) start.

Definition atReminder : World := step (EvTick 300000) scheduled.

Definition reminderFired : World := step (EvFire 1) atReminder.

Definition atDue : World := step (EvTick 600000) reminderFired.

(** The reminder's deferred [close] runs first, it has been due longer. *)
Definition reminderClosed : World := step (EvFire 3) atDue.

Definition dueFired : World := step (EvFire 2) reminderClosed.

(** The platform refuses the [Notification] constructor. *)
Definition refusing : World := step (EvCtor true) scheduled.

Definition refusingAtDue : World := step (EvTick 600000) refusing.

(** Permission was granted at start-up and is then withdrawn in the
    browser settings. *)
Definition revoked : World := step (EvSettings denied) start.

(** A body with an empty title, and a table whose rows are out of order. *)
Definition sampleDates : DateParser :=
  λ s, if String.eqb s "2025-01-01T10:00:00.000Z" then Some 1735725600000 else None.

Definition emptyTitleBody : option Json :=
  Some (JObj [("title", JStr ""); ("scheduledDate", JStr "2025-01-01T10:00:00.000Z")]).

Definition sampleDb : Db :=
  mkDb [mkTask 1 "c" 300 "low" "work" false 0;
        mkTask 2 "a" 100 "high" "health" true 0;
        mkTask 3 "b" 200 "medium" "personal" false 0]
       4 1000 true.

End Scenario.

(** * The rest of the storage layer and of the page *)

(** ** [DatabaseStorage]: lookup and deletion *)

(** [getTaskById(id)]: the first row with that id ([undefined] is the inner
    [None]); the outer [None] is a query that throws, as it does for an id
    outside the range of the column. *)
Definition getTaskById (id : Z) (db : Db) : option (option Task) :=
  if negb (db_online db) || negb (isInt4 id) then None
  else Some (head (filter (λ t, task_id t = id) (db_rows db))).

(** [deleteTask(id)]: removes the rows with that id and tells whether
    [returning()] brought any back; [None] is a query that throws. *)
Definition deleteTask (id : Z) (db : Db) : option (bool * Db) :=
  if negb (db_online db) || negb (isInt4 id) then None
  else
    let result := filter (λ t, task_id t = id) (db_rows db) in
    Some (bool_decide (0 < length result)%nat,
          mkDb (filter (λ t, task_id t ≠ id) (db_rows db))
               (db_serial db) (db_now db) (db_online db)).

(** [app.delete("/api/tasks/:id", ...)]; [id] is the integer that
    [parseInt(req.params.id)] produced. *)
Definition deleteTaskRoute (id : Z) (db : Db) : Response * Db :=
  match deleteTask id db with
  | Some (success, db') =>
      if negb success
      then (mkResponse 404 (SendError "Task not found" None), db')
      else (mkResponse 204 SendNothing, db')
  | None => (mkResponse 500 (SendError "Failed to delete task" None), db)
  end.

(** The [id] column is a primary key fed by the [serial] counter. *)
Definition DbOk (db : Db) : Prop :=
  NoDup (task_id <$> db_rows db)
  ∧ Forall (λ t, task_id t < db_serial db) (db_rows db).

(** ** The page [Home] *)

Module Home.

(** Requests the page sends through [apiRequest]. *)
Inductive ApiRequest :=
  | PatchCompleted (id : Z) (completed : bool)  (* PATCH /api/tasks/:id {completed} *)
  | Delete (id : Z).                            (* DELETE /api/tasks/:id *)

(** [toggleTask(task)]: the mutation that is sent, and what happens to the
    scheduler. *)
Definition toggleTask (task : Task) (w : World) : ApiRequest * World :=
  (PatchCompleted (task_id task) (negb (task_completed task)),
   if negb (task_completed task)
   then clearNotification (task_id task) w
   else scheduleNotification task w).

(** [deleteTask(id)] *)
Definition deleteTask (id : Z) (w : World) : ApiRequest * World :=
  (Delete id, clearNotification id w).

(** [tasks.filter(task => !task.completed).forEach(task =>
    notificationService.scheduleNotification(task))] *)
Definition schedulePending (tasks : list Task) (w : World) : World :=
  foldl (λ acc task, scheduleNotification task acc) w
        (filter (λ task, task_completed task = false) tasks).

(** The effect that runs when [tasks] or [hasNotificationPermission]
    change. *)
Definition scheduleEffect (hasNotificationPermission : bool)
    (tasks : list Task) (w : World) : World :=
  if hasNotificationPermission then schedulePending tasks w else w.

(** The state [filter]. *)
Inductive Filter := all | pending | completed.

(** The predicate of [filteredTasks]. *)
Definition shown (filter_ : Filter) (task : Task) : bool :=
  match filter_ with
  | completed => task_completed task
  | pending => negb (task_completed task)
  | all => true
  end.

(** [filteredTasks] *)
Definition filteredTasks (filter_ : Filter) (tasks : list Task) : list Task :=
  filter (λ task, shown filter_ task = true) tasks.

(** [getTaskStatus(task)] at the instant [now].  [hoursDiff] is the quotient
    [timeDiff / (1000 * 60 * 60)]; it is compared with [2] only, and for an
    integral [timeDiff] the rounded quotient is below [2] exactly when the
    exact one is, so the quotient is taken in the rationals. *)
Definition getTaskStatus (now : Z) (task : Task) : string :=
  let timeDiff := task_scheduledDate task - now in
  let hoursDiff :=
    QArith_base.Qdiv (QArith_base.inject_Z timeDiff)
                     (QArith_base.inject_Z (1000 * 60 * 60)) in
  if task_completed task then "completed"
  else if timeDiff <? 0 then "overdue"
  else if QArith_base.Qlt_le_dec hoursDiff (QArith_base.inject_Z 2) then "due-soon"
  else "scheduled".

(** The counters of the statistics card. *)
Definition totalTasks (tasks : list Task) : nat := length tasks.

Definition completedTasks (tasks : list Task) : nat :=
  length (filter (λ t, task_completed t = true) tasks).

Definition pendingTasks (tasks : list Task) : nat :=
  length (filter (λ t, task_completed t = false) tasks).

Definition overdueTasks (now : Z) (tasks : list Task) : nat :=
  length (filter (λ t, task_completed t = false ∧ task_scheduledDate t < now) tasks).

End Home.

(** ** More about the scheduler's bookkeeping *)


(** A recorded handle that is still pending belongs to the timer of that
    very key. *)
Definition Exclusive (w : World) : Prop :=
  ∀ k h d cb,
    scheduledNotifications w !! k = Some h → timers w !! h = Some (d, cb) →
    cbKey cb = Some k.

(** No alert timer of the task is pending in [w'] that was not in [w]. *)
Definition noNewAlerts (taskId : Z) (w w' : World) : Prop :=
  ∀ h d cb, timers w' !! h = Some (d, cb) → cbTaskId cb = Some taskId →
            timers w !! h = Some (d, cb).

(** Events that arm an alert of the task. *)
Definition schedules (taskId : Z) (e : Event) : Prop :=
  match e with
  | EvSchedule task => task_id task = taskId
  | _ => False
  end.

(** How many alerts a task due [task_scheduledDate task - now] from now
    is given: the due-now alert unless overdue, the reminder when more than
    five minutes remain. *)
Definition expectedAlerts (now : Z) (task : Task) : nat :=
  ((if (task_scheduledDate task - now <? 0)%Z then 0 else 1)
   + (if (5 * 60 * 1000 <? task_scheduledDate task - now)%Z then 1 else 0))%nat.

(** A sequence of events, one after the other. *)
Definition run (events : list Event) (w : World) : World :=
  foldl (λ acc e, step e acc) w events.

(** More states to try things on. *)
Module Samples.

Definition task2 : Task := mkTask 2 "Buy milk" 120000 "low" "shopping" false 0.

Definition done3 : Task := mkTask 3 "Stretch" 900000 "medium" "health" true 0.

(** Both tasks of the list are scheduled. *)
Definition both : World := step (EvSchedule task2) Scenario.scheduled.

(** A table with two rows, ids 1 and 2. *)
Definition twoRows : Db :=
  mkDb [mkTask 1 "a" 100 "high" "work" false 0;
        mkTask 2 "b" 50 "low" "personal" false 0] 3 1000 true.

Definition validBody : option Json :=
  Some (JObj [("title", JStr "Buy milk");
              ("scheduledDate", JStr "2025-01-01T10:00:00.000Z")]).

Definition malformedDateBody : option Json :=
  Some (JObj [("title", JStr "Buy milk"); ("scheduledDate", JStr "tomorrow")]).

End Samples.

(** Closes a decidable goal about concrete worlds by evaluation. *)
Ltac by_evaluation :=
  apply (bool_decide_unpack _); vm_compute; first [exact I | reflexivity].

(** * Proofs *)

(** ** The invariant is kept *)

Lemma Inv_sameBooks w w' : sameBooks w w' → Inv w → Inv w'.
Proof.
  intros (Hm & Ht & Hn) [H1 H2 H3 H4].
  split; rewrite ?Hm, ?Ht, ?Hn; assumption.
Qed.

Lemma sameBooks_checkPermission w : sameBooks w (checkPermission w).
Proof. unfold checkPermission. destruct (platformPermission w); repeat split. Qed.

Lemma sameBooks_promptSettles reply w : sameBooks w (promptSettles reply w).
Proof.
  unfold promptSettles.
  destruct reply, (platformPermission w); repeat split.
Qed.

Lemma Inv_construct p now throws : Inv (construct p now throws).
Proof.
  apply (Inv_sameBooks _ _ (sameBooks_checkPermission _)).
  split; simpl; intros; try lia; simplify_map_eq.
Qed.

(** Cancelling a timer keeps the invariant. *)
Lemma Inv_clearTimeout h w : Inv w → Inv (clearTimeout h w).
Proof.
  intros [H1 H2 H3 H4]. split; simpl; auto.
  - intros h' v Hv. apply lookup_delete_Some in Hv as [_ Hv]. eauto.
  - intros h' d cb k Hv Hk. apply lookup_delete_Some in Hv as [_ Hv]. eauto.
Qed.

(** A timer that the service does not record (a deferred [close]). *)
Lemma Inv_setTimeout_unowned cb delay w :
  cbKey cb = None → Inv w → Inv (snd (setTimeout cb delay w)).
Proof.
  intros Hcb [H1 H2 H3 H4]. split; simpl.
  - lia.
  - intros k h Hk. apply H2 in Hk. lia.
  - intros h v Hv. apply lookup_insert_Some in Hv as [[<- _]|[_ Hv]]; [lia|].
    apply H3 in Hv. lia.
  - intros h d cb' k Hv Hk.
    apply lookup_insert_Some in Hv as [[_ Heq]|[_ Hv]]; [|eauto].
    inversion Heq; subst. congruence.
Qed.

Lemma Inv_arm cb k delay w :
  cbKey cb = Some k → scheduledNotifications w !! k = None →
  Inv w → Inv (arm cb k delay w).
Proof.
  intros Hcb Hfree [H1 H2 H3 H4]. split; simpl.
  - lia.
  - intros k' h Hk.
    apply lookup_insert_Some in Hk as [[_ <-]|[_ Hk]]; [lia|].
    apply H2 in Hk. lia.
  - intros h v Hv. apply lookup_insert_Some in Hv as [[<- _]|[_ Hv]]; [lia|].
    apply H3 in Hv. lia.
  - intros h d cb' k' Hv Hk.
    apply lookup_insert_Some in Hv as [[<- Heq]|[Hne Hv]].
    + inversion Heq; subst. assert (k' = k) as -> by congruence.
      apply lookup_insert_eq.
    + pose proof (H4 _ _ _ _ Hv Hk) as Hold.
      rewrite lookup_insert_ne; [assumption|]. intros ->. congruence.
Qed.

(** Dropping a key that no pending timer is recorded under. *)
Lemma Inv_delete_key k w :
  (∀ h d cb, timers w !! h = Some (d, cb) → cbKey cb ≠ Some k) →
  Inv w → Inv (set_scheduledNotifications (delete k (scheduledNotifications w)) w).
Proof.
  intros Hfree [H1 H2 H3 H4]. split; simpl; auto.
  - intros k' h Hk. apply lookup_delete_Some in Hk as [_ Hk]. eauto.
  - intros h d cb k' Hv Hk.
    rewrite lookup_delete_ne; [eauto|]. intros <-. by eapply Hfree.
Qed.

(** *** [clearNotification] *)

Lemma clearEntry_spec k w :
  Inv w →
  clearEntry k w =
    set_scheduledNotifications (delete k (scheduledNotifications w))
      (match scheduledNotifications w !! k with
       | Some h => clearTimeout h w
       | None => w
       end).
Proof.
  intros HI. unfold clearEntry.
  destruct (scheduledNotifications w !! k) as [h|] eqn:Hk.
  - apply (inv_map _ HI) in Hk. rewrite bool_decide_true by lia. reflexivity.
  - rewrite delete_id by assumption. by destruct w.
Qed.

Lemma clearEntry_lookup k k' w :
  Inv w →
  scheduledNotifications (clearEntry k w) !! k' =
    if decide (k = k') then None else scheduledNotifications w !! k'.
Proof.
  intros HI. rewrite clearEntry_spec by assumption. simpl.
  destruct (scheduledNotifications w !! k); simpl; apply lookup_delete.
Qed.

Lemma clearEntry_timers_sub k w h v :
  timers (clearEntry k w) !! h = Some v → timers w !! h = Some v.
Proof.
  unfold clearEntry. destruct (scheduledNotifications w !! k) as [h0|]; [|done].
  case_bool_decide; [|done]. simpl.
  intros Hv. by apply lookup_delete_Some in Hv as [_ Hv].
Qed.

Lemma Inv_clearEntry k w : Inv w → Inv (clearEntry k w).
Proof.
  intros HI. rewrite clearEntry_spec by assumption.
  destruct (scheduledNotifications w !! k) as [h0|] eqn:Hk.
  - apply (Inv_delete_key k (clearTimeout h0 w)); [|by apply Inv_clearTimeout].
    simpl. intros h d cb Hv Hcb.
    apply lookup_delete_Some in Hv as [Hne Hv].
    pose proof (inv_owned _ HI _ _ _ _ Hv Hcb). congruence.
  - apply (Inv_delete_key k w); [|assumption].
    intros h d cb Hv Hcb. pose proof (inv_owned _ HI _ _ _ _ Hv Hcb). congruence.
Qed.

Lemma Inv_clearNotification taskId w : Inv w → Inv (clearNotification taskId w).
Proof. intros HI. unfold clearNotification. by do 2 apply Inv_clearEntry. Qed.

Lemma taskKey_ne_reminderKey a b : taskKey a ≠ reminderKey b.
Proof. discriminate. Qed.

Lemma clearNotification_lookup taskId k w :
  Inv w →
  scheduledNotifications (clearNotification taskId w) !! k =
    if decide (k = taskKey taskId ∨ k = reminderKey taskId) then None
    else scheduledNotifications w !! k.
Proof.
  intros HI. unfold clearNotification.
  rewrite clearEntry_lookup by (by apply Inv_clearEntry).
  rewrite clearEntry_lookup by assumption.
  destruct (decide (reminderKey taskId = k)) as [<-|Hr].
  - rewrite decide_True by (by right). reflexivity.
  - destruct (decide (taskKey taskId = k)) as [<-|Ht].
    + rewrite decide_True by (by left). reflexivity.
    + rewrite decide_False by (intros [->| ->]; congruence). reflexivity.
Qed.

Lemma clearNotification_timers_sub taskId w h v :
  timers (clearNotification taskId w) !! h = Some v → timers w !! h = Some v.
Proof. intros Hv. by do 2 apply clearEntry_timers_sub in Hv. Qed.

Lemma clearEntry_fields k w :
  permissionGranted (clearEntry k w) = permissionGranted w
  ∧ platformPermission (clearEntry k w) = platformPermission w
  ∧ clock (clearEntry k w) = clock w
  ∧ nextHandle (clearEntry k w) = nextHandle w.
Proof.
  unfold clearEntry. destruct (scheduledNotifications w !! k); [|done].
  by case_bool_decide.
Qed.

Lemma clearNotification_fields taskId w :
  permissionGranted (clearNotification taskId w) = permissionGranted w
  ∧ platformPermission (clearNotification taskId w) = platformPermission w
  ∧ clock (clearNotification taskId w) = clock w
  ∧ nextHandle (clearNotification taskId w) = nextHandle w.
Proof.
  unfold clearNotification.
  destruct (clearEntry_fields (reminderKey taskId) (clearEntry (taskKey taskId) w))
    as (-> & -> & -> & ->).
  apply clearEntry_fields.
Qed.

(** *** [scheduleNotification] *)

(** The branches of [scheduleNotification] once permission is granted, in
    terms of [arm]. *)
Lemma scheduleNotification_unfold task w :
  permissionGranted w = true →
  scheduleNotification task w =
    let w1 := clearNotification (task_id task) w in
    let timeDiff := task_scheduledDate task - clock w in
    if timeDiff <? 0 then w1
    else if 5 * 60 * 1000 <? timeDiff
    then arm (CbExact task) (taskKey (task_id task)) timeDiff
           (arm (CbReminder task) (reminderKey (task_id task))
                (timeDiff - 5 * 60 * 1000) w1)
    else arm (CbExact task) (taskKey (task_id task)) timeDiff w1.
Proof.
  intros Hp. unfold scheduleNotification. rewrite Hp. simpl negb. cbv zeta.
  destruct (clearNotification_fields (task_id task) w) as (_ & _ & -> & _).
  destruct (task_scheduledDate task - clock w <? 0) eqn:Hneg; [reflexivity|].
  apply Z.ltb_ge in Hneg.
  destruct (5 * 60 * 1000 <? task_scheduledDate task - clock w) eqn:Hfar.
  - apply Z.ltb_lt in Hfar.
    rewrite Z.max_l by lia.
    replace (0 <? task_scheduledDate task - clock w - 5 * 60 * 1000) with true
      by (symmetry; apply Z.ltb_lt; lia).
    reflexivity.
  - apply Z.ltb_ge in Hfar.
    rewrite Z.max_r by lia. reflexivity.
Qed.

Lemma arm_lookup cb k delay w k' :
  scheduledNotifications (arm cb k delay w) !! k' =
    if decide (k = k') then Some (nextHandle w) else scheduledNotifications w !! k'.
Proof. unfold arm. simpl. apply lookup_insert. Qed.

Lemma Inv_scheduleNotification task w : Inv w → Inv (scheduleNotification task w).
Proof.
  intros HI.
  destruct (permissionGranted w) eqn:Hp;
    [|unfold scheduleNotification; by rewrite Hp].
  rewrite scheduleNotification_unfold by assumption. cbv zeta.
  pose proof (Inv_clearNotification (task_id task) w HI) as HI1.
  pose proof (clearNotification_lookup (task_id task) (taskKey (task_id task)) w HI) as Ht.
  pose proof (clearNotification_lookup (task_id task) (reminderKey (task_id task)) w HI) as Hr.
  rewrite decide_True in Ht by (by left).
  rewrite decide_True in Hr by (by right).
  destruct (_ <? 0); [assumption|].
  destruct (_ <? _).
  - apply Inv_arm; [reflexivity| |by apply Inv_arm].
    rewrite arm_lookup. by rewrite decide_False by (symmetry; apply taskKey_ne_reminderKey).
  - by apply Inv_arm.
Qed.

(** *** [clearAllNotifications] *)

Lemma clearAll_fold (w : World) (m : gmap key Z) :
  let r := map_fold (λ _ timeoutId acc, clearTimeout timeoutId acc) w m in
  nextHandle r = nextHandle w
  ∧ scheduledNotifications r = scheduledNotifications w
  ∧ ∀ h v, timers r !! h = Some v ↔
           timers w !! h = Some v ∧ ∀ k, m !! k ≠ Some h.
Proof.
  cbv zeta.
  apply (map_fold_weak_ind (λ r (m : gmap key Z),
    nextHandle r = nextHandle w
    ∧ scheduledNotifications r = scheduledNotifications w
    ∧ ∀ h v, timers r !! h = Some v ↔
             timers w !! h = Some v ∧ ∀ k, m !! k ≠ Some h)).
  - split; [reflexivity|]. split; [reflexivity|]. intros h v. split.
    + intros Hv. split; [assumption|]. intros k. by rewrite lookup_empty.
    + by intros [Hv _].
  - intros k x m' r Hk (Hn & Hm & Ht). simpl.
    split; [assumption|]. split; [assumption|]. intros h v. split.
    + intros Hv. apply lookup_delete_Some in Hv as [Hne Hv].
      apply Ht in Hv as [Hv Hno]. split; [assumption|].
      intros k' Hk'.
      apply lookup_insert_Some in Hk' as [[_ ?]|[_ Hk']]; [congruence|].
      by apply (Hno k').
    + intros [Hv Hno]. apply lookup_delete_Some. split.
      * intros <-. apply (Hno k). apply lookup_insert_eq.
      * apply Ht. split; [assumption|]. intros k' Hk'.
        apply (Hno k'). rewrite lookup_insert_ne; [assumption|]. congruence.
Qed.

Lemma Inv_clearAllNotifications w : Inv w → Inv (clearAllNotifications w).
Proof.
  intros HI. unfold clearAllNotifications.
  destruct (clearAll_fold w (scheduledNotifications w)) as (Hn & _ & Ht).
  split; simpl.
  - rewrite Hn. apply (inv_next _ HI).
  - intros k h Hk. by rewrite lookup_empty in Hk.
  - intros h v Hv. rewrite Hn. apply Ht in Hv as [Hv _]. by apply (inv_timers _ HI) in Hv.
  - intros h d cb k Hv Hk. apply Ht in Hv as [Hv Hno].
    pose proof (inv_owned _ HI _ _ _ _ Hv Hk). by apply Hno in H.
Qed.

(** *** Showing a notification *)

Lemma quiet_refl w : quiet w w.
Proof. unfold quiet. split; [reflexivity|]. split; [tauto|]. intros h d cb k Hv _. exact Hv. Qed.

Lemma quiet_close n delay ns w :
  quiet w (snd (setTimeout (CbClose n) delay (playNotificationSound (set_notifications ns w)))).
Proof.
  split; [reflexivity|]. split.
  - intros HI. apply Inv_setTimeout_unowned; [reflexivity|].
    by apply (Inv_sameBooks w).
  - simpl. intros h d cb k Hv Hk.
    apply lookup_insert_Some in Hv as [[_ Heq]|[_ Hv]]; [|assumption].
    inversion Heq; subst. discriminate.
Qed.

Lemma quiet_newNotification_close tag ri delay w :
  quiet w (worldOf (match newNotification tag ri w with
                    | Throw w' => Throw w'
                    | Ok n w1 =>
                        Ok tt (snd (setTimeout (CbClose n) delay (playNotificationSound w1)))
                    end)).
Proof.
  unfold newNotification. destruct (ctorThrows w); simpl worldOf.
  - apply quiet_refl.
  - apply quiet_close.
Qed.

Lemma quiet_showReminderNotification task w :
  quiet w (worldOf (showReminderNotification task w)).
Proof.
  unfold showReminderNotification.
  destruct (negb (permissionGranted w)); [apply quiet_refl|].
  apply quiet_newNotification_close.
Qed.

Lemma quiet_showExactTimeNotification task w :
  quiet w (worldOf (showExactTimeNotification task w)).
Proof.
  unfold showExactTimeNotification.
  destruct (negb (permissionGranted w)); [apply quiet_refl|].
  apply quiet_newNotification_close.
Qed.

Lemma quiet_testDesktopNotification w :
  quiet w (worldOf (testDesktopNotification w)).
Proof.
  unfold testDesktopNotification.
  destruct (platformPermission w) as [[]|]; try apply quiet_refl.
  unfold newNotification. destruct (ctorThrows w); simpl worldOf; [apply quiet_refl|].
  destruct (quiet_close (length (notifications w)) 5000
              (notifications w ++ [mkNotif "test-notification" false true]) w)
    as (Hm & HI & Ht).
  split; [exact Hm|]. split; [|exact Ht].
  intros HIw. eapply Inv_sameBooks; [|exact (HI HIw)]. by repeat split.
Qed.

(** *** Timers firing *)

Lemma Inv_fireTimer h w : Inv w → Inv (worldOf (fireTimer h w)).
Proof.
  intros HI. unfold fireTimer.
  destruct (timers w !! h) as [[d cb]|] eqn:Hh; [|assumption].
  pose proof (Inv_clearTimeout h w HI) as HI0.
  destruct cb as [task|task|n]; simpl runCallback.
  - by apply quiet_showReminderNotification.
  - destruct (quiet_showExactTimeNotification task (clearTimeout h w)) as (Hm & HI' & Ht).
    destruct (showExactTimeNotification task (clearTimeout h w)) as [[] w'|w'];
      simpl in *; [|by apply HI'].
    apply Inv_delete_key; [|by apply HI'].
    intros h' d' cb' Hv Hk. apply (Ht _ _ _ _ Hv) in Hk as Hold.
    apply lookup_delete_Some in Hold as [Hne Hold].
    pose proof (inv_owned _ HI _ _ _ _ Hold Hk) as E1.
    pose proof (inv_owned _ HI _ _ _ (taskKey (task_id task)) Hh eq_refl) as E2.
    congruence.
  - simpl. by apply (Inv_sameBooks (clearTimeout h w)).
Qed.

(** *** Every reachable state satisfies the invariant *)

Lemma Inv_step e w : Inv w → Inv (step e w).
Proof.
  intros HI. destruct e; simpl.
  - exact (Inv_sameBooks _ _ (sameBooks_checkPermission w) HI).
  - unfold requestPermission.
    destruct (platformPermission w) as [[]|]; simpl; try assumption.
    by apply (Inv_sameBooks w).
  - pose proof (Inv_sameBooks _ _ (sameBooks_promptSettles reply w) HI) as HI'.
    destruct reply as [p|]; simpl; [|assumption].
    eapply Inv_sameBooks; [apply sameBooks_checkPermission|].
    eapply Inv_sameBooks; [|exact HI']. by repeat split.
  - by apply Inv_scheduleNotification.
  - by apply Inv_clearNotification.
  - by apply Inv_clearAllNotifications.
  - by apply quiet_testDesktopNotification.
  - pose proof (Inv_sameBooks _ _ (sameBooks_promptSettles (Some reply) w) HI) as HI'.
    unfold testDesktopNotification_then. case_bool_decide; [|assumption].
    pose proof (quiet_testDesktopNotification (promptSettles (Some reply) w)) as (_ & HQ & _).
    destruct (testDesktopNotification _); by apply HQ.
  - by apply Inv_fireTimer.
  - by apply (Inv_sameBooks w).
  - exact (Inv_sameBooks _ _ (sameBooks_promptSettles (Some p) w) HI).
  - by apply (Inv_sameBooks w).
Qed.

Lemma reachable_Inv w : reachable w → Inv w.
Proof.
  induction 1 as [p now throws|e w Hr IH He].
  - apply Inv_construct.
  - by apply Inv_step.
Qed.

(** ** Pending timers and pending entries *)

Lemma size_recorded (k : key) (m : gmap key Z) : size (recorded k m) = if has k m then 1%nat else 0%nat.
Proof.
  unfold recorded, has. destruct (m !! k) as [h|].
  - rewrite bool_decide_true by eauto. apply size_singleton.
  - rewrite bool_decide_false by (by intros [? ?]). apply size_empty.
Qed.

(** Under the invariant the alert timers pending for a task are among the
    handles recorded under its two keys. *)
Lemma pendingTimers_le_entries taskId w :
  Inv w → (pendingTimers taskId w ≤ pendingEntries taskId w)%nat.
Proof.
  intros HI. unfold pendingTimers, pendingEntries.
  rewrite <- !size_recorded.
  set (F := filter _ (timers w)).
  set (A := recorded (taskKey taskId) (scheduledNotifications w)).
  set (B := recorded (reminderKey taskId) (scheduledNotifications w)).
  rewrite <- (size_dom (D := gset Z) F).
  transitivity (size (A ∪ B)).
  - apply subseteq_size. intros h Hh.
    apply elem_of_dom in Hh as [[d cb] Hv].
    apply map_lookup_filter_Some in Hv as [Hv Hcb]. simpl in Hcb.
    apply elem_of_union. subst A B. unfold recorded.
    destruct cb as [t|t|n]; simpl in Hcb; [| |discriminate];
      injection Hcb as <-.
    + right. rewrite (inv_owned _ HI _ _ _ _ Hv eq_refl). by apply elem_of_singleton.
    + left. rewrite (inv_owned _ HI _ _ _ _ Hv eq_refl). by apply elem_of_singleton.
  - rewrite size_union_alt.
    assert (size (B ∖ A) ≤ size B)%nat.
    { apply subseteq_size. intros x Hx. by apply elem_of_difference in Hx as [Hx _]. }
    lia.
Qed.

Lemma pendingEntries_le_2 taskId w : (pendingEntries taskId w ≤ 2)%nat.
Proof. unfold pendingEntries. repeat destruct (has _ _); lia. Qed.

Lemma has_false (k : key) (m : gmap key Z) : has k m = false ↔ m !! k = None.
Proof.
  unfold has. rewrite bool_decide_eq_false. split.
  - intros Hn. destruct (m !! k); [exfalso; eauto|done].
  - intros -> [? ?]. discriminate.
Qed.

(** *** State after [clearNotification] *)

Lemma clearNotification_has taskId w :
  Inv w →
  has (taskKey taskId) (scheduledNotifications (clearNotification taskId w)) = false
  ∧ has (reminderKey taskId) (scheduledNotifications (clearNotification taskId w)) = false.
Proof.
  intros HI. split; apply has_false; rewrite clearNotification_lookup by assumption.
  - by rewrite decide_True by (by left).
  - by rewrite decide_True by (by right).
Qed.

Lemma clearNotification_absent taskId w :
  isTaskScheduled taskId w = false → clearNotification taskId w = w.
Proof.
  unfold isTaskScheduled. intros H. apply orb_false_elim in H as [H1 H2].
  apply has_false in H1, H2.
  unfold clearNotification, clearEntry. rewrite H1. by rewrite H2.
Qed.

(** *** State after [scheduleNotification] *)

Lemma arm_has cb k delay w k' :
  has k' (scheduledNotifications (arm cb k delay w)) =
    if decide (k = k') then true else has k' (scheduledNotifications w).
Proof.
  unfold has. rewrite arm_lookup. destruct (decide (k = k')); [|reflexivity].
  apply bool_decide_eq_true. eauto.
Qed.

Lemma scheduleNotification_has task w :
  Inv w → permissionGranted w = true →
  let d := task_scheduledDate task - clock w in
  let m := scheduledNotifications (scheduleNotification task w) in
  has (taskKey (task_id task)) m = negb (d <? 0)
  ∧ has (reminderKey (task_id task)) m = (5 * 60 * 1000 <? d).
Proof.
  intros HI Hp d m. subst m.
  rewrite scheduleNotification_unfold by assumption. cbv zeta. fold d.
  destruct (clearNotification_has (task_id task) w HI) as [Ht Hr].
  destruct (d <? 0) eqn:Hneg.
  - apply Z.ltb_lt in Hneg.
    replace (5 * 60 * 1000 <? d) with false by (symmetry; apply Z.ltb_ge; lia).
    by split.
  - destruct (5 * 60 * 1000 <? d) eqn:Hfar; rewrite !arm_has.
    + rewrite decide_True by reflexivity.
      rewrite decide_False by apply taskKey_ne_reminderKey.
      rewrite decide_True by reflexivity. by split.
    + rewrite decide_True by reflexivity.
      rewrite decide_False by apply taskKey_ne_reminderKey. by split.
Qed.

Lemma arm_timers cb k delay w :
  timers (arm cb k delay w)
    = <[nextHandle w := (clock w + timerDelay delay, cb)]> (timers w).
Proof. reflexivity. Qed.

Lemma arm_fields cb k delay w :
  permissionGranted (arm cb k delay w) = permissionGranted w
  ∧ clock (arm cb k delay w) = clock w
  ∧ nextHandle (arm cb k delay w) = nextHandle w + 1.
Proof. by repeat split. Qed.

Lemma scheduleNotification_fields task w :
  permissionGranted (scheduleNotification task w) = permissionGranted w
  ∧ clock (scheduleNotification task w) = clock w.
Proof.
  destruct (permissionGranted w) eqn:Hp;
    [|unfold scheduleNotification; by rewrite Hp].
  rewrite scheduleNotification_unfold by assumption. cbv zeta.
  destruct (clearNotification_fields (task_id task) w) as (Hg & _ & Hc & _).
  destruct (_ <? 0); [by rewrite Hg, Hc|].
  destruct (_ <? _); simpl; by rewrite Hg, Hc.
Qed.

Lemma pendingEntries_schedule task w :
  Inv w → permissionGranted w = true →
  pendingEntries (task_id task) (scheduleNotification task w) =
    ((if (task_scheduledDate task - clock w <? 0)%Z then 0 else 1)
     + (if (5 * 60 * 1000 <? task_scheduledDate task - clock w)%Z then 1 else 0))%nat.
Proof.
  intros HI Hp. unfold pendingEntries.
  destruct (scheduleNotification_has task w HI Hp) as [-> ->].
  by destruct (_ <? 0).
Qed.

(** What [scheduleNotification] arms for a task due more than five minutes
    ahead: two fresh timers, recorded under the two keys. *)
Lemma scheduleNotification_far task w :
  permissionGranted w = true →
  let timeDiff := task_scheduledDate task - clock w in
  5 * 60 * 1000 < timeDiff →
  let w' := scheduleNotification task w in
  scheduledNotifications w' !! reminderKey (task_id task) = Some (nextHandle w)
  ∧ scheduledNotifications w' !! taskKey (task_id task) = Some (nextHandle w + 1)
  ∧ timers w' !! nextHandle w =
      Some (clock w + timerDelay (timeDiff - 5 * 60 * 1000), CbReminder task)
  ∧ timers w' !! (nextHandle w + 1)
      = Some (clock w + timerDelay timeDiff, CbExact task).
Proof.
  intros Hp timeDiff Hfar w'.
  destruct (clearNotification_fields (task_id task) w) as (_ & _ & Hc & Hn).
  assert (w' = arm (CbExact task) (taskKey (task_id task)) timeDiff
                 (arm (CbReminder task) (reminderKey (task_id task))
                      (timeDiff - 5 * 60 * 1000)
                      (clearNotification (task_id task) w))) as ->.
  { unfold w'. rewrite scheduleNotification_unfold by assumption. cbv zeta.
    fold timeDiff.
    replace (timeDiff <? 0) with false by (symmetry; apply Z.ltb_ge; lia).
    by replace (5 * 60 * 1000 <? timeDiff) with true by (symmetry; apply Z.ltb_lt; lia). }
  split; [|split; [|split]].
  - rewrite !arm_lookup.
    rewrite decide_False by apply taskKey_ne_reminderKey.
    rewrite decide_True by reflexivity. by rewrite Hn.
  - rewrite arm_lookup. rewrite decide_True by reflexivity. simpl. by rewrite Hn.
  - rewrite !arm_timers. simpl. rewrite Hn, Hc.
    rewrite lookup_insert_ne by lia. apply lookup_insert_eq.
  - rewrite !arm_timers. simpl. rewrite Hn, Hc. apply lookup_insert_eq.
Qed.

(** ... and for a task due within the next five minutes: one fresh timer
    under the task's own key. *)
Lemma scheduleNotification_near task w :
  permissionGranted w = true →
  let timeDiff := task_scheduledDate task - clock w in
  0 ≤ timeDiff ≤ 5 * 60 * 1000 →
  let w' := scheduleNotification task w in
  scheduledNotifications w' !! taskKey (task_id task) = Some (nextHandle w)
  ∧ timers w' !! nextHandle w = Some (clock w + timerDelay timeDiff, CbExact task).
Proof.
  intros Hp timeDiff Hnear w'.
  destruct (clearNotification_fields (task_id task) w) as (_ & _ & Hc & Hn).
  assert (w' = arm (CbExact task) (taskKey (task_id task)) timeDiff
                 (clearNotification (task_id task) w)) as ->.
  { unfold w'. rewrite scheduleNotification_unfold by assumption. cbv zeta.
    fold timeDiff.
    replace (timeDiff <? 0) with false by (symmetry; apply Z.ltb_ge; lia).
    by replace (5 * 60 * 1000 <? timeDiff) with false by (symmetry; apply Z.ltb_ge; lia). }
  rewrite arm_lookup, arm_timers. rewrite Hn, Hc.
  rewrite decide_True by reflexivity. by rewrite lookup_insert_eq.
Qed.

(** Pending alert timers are counted from below by exhibiting them. *)
Lemma pendingTimers_ge_1 taskId h due cb w :
  timers w !! h = Some (due, cb) → cbTaskId cb = Some taskId →
  (1 ≤ pendingTimers taskId w)%nat.
Proof.
  intros Hh Hcb. unfold pendingTimers.
  set (F := filter _ (timers w)).
  rewrite <- (size_dom (D := gset Z) F).
  rewrite <- (size_singleton (C := gset Z) h).
  apply subseteq_size. intros x Hx. apply elem_of_singleton in Hx as ->.
  apply elem_of_dom. exists (due, cb). by apply map_lookup_filter_Some.
Qed.

Lemma pendingTimers_ge_2 taskId h h' due due' cb cb' w :
  h ≠ h' →
  timers w !! h = Some (due, cb) → cbTaskId cb = Some taskId →
  timers w !! h' = Some (due', cb') → cbTaskId cb' = Some taskId →
  (2 ≤ pendingTimers taskId w)%nat.
Proof.
  intros Hne Hh Hcb Hh' Hcb'. unfold pendingTimers.
  set (F := filter _ (timers w)).
  rewrite <- (size_dom (D := gset Z) F).
  assert (size ({[h]} ∪ {[h']} : gset Z) = 2%nat) as <-.
  { rewrite size_union by (by apply disjoint_singleton_l, not_elem_of_singleton).
    by rewrite !size_singleton. }
  apply subseteq_size. intros x Hx. apply elem_of_dom.
  apply elem_of_union in Hx as [Hx|Hx]; apply elem_of_singleton in Hx as ->.
  - exists (due, cb). by apply map_lookup_filter_Some.
  - exists (due', cb'). by apply map_lookup_filter_Some.
Qed.

(** After [clearNotification] nothing is recorded or pending for the id. *)
Lemma clearNotification_cleared taskId w :
  Inv w →
  isTaskScheduled taskId (clearNotification taskId w) = false
  ∧ pendingTimers taskId (clearNotification taskId w) = 0%nat.
Proof.
  intros HI.
  destruct (clearNotification_has taskId w HI) as [Ht Hrem].
  pose proof (pendingTimers_le_entries taskId _ (Inv_clearNotification taskId w HI)) as Hle.
  unfold pendingEntries in Hle. rewrite Ht, Hrem in Hle.
  split; [unfold isTaskScheduled; by rewrite Ht, Hrem|lia].
Qed.

(** ** The scenarios are reachable *)

Lemma reachable_scheduled : reachable Scenario.scheduled.
Proof. apply reach_step; [apply reach_construct|exact I]. Defined.

Lemma reachable_reminderFired : reachable Scenario.reminderFired.
Proof.
  apply reach_step; [apply reach_step; [apply reachable_scheduled|]|].
  - simpl. vm_compute. discriminate.
  - by_evaluation.
Defined.

Lemma reachable_dueFired : reachable Scenario.dueFired.
Proof.
  apply reach_step;
    [apply reach_step; [apply reach_step; [apply reachable_reminderFired|]|]|].
  - simpl. vm_compute. discriminate.
  - by_evaluation.
  - by_evaluation.
Defined.

Lemma reachable_revoked : reachable Scenario.revoked.
Proof. apply reach_step; [apply reach_construct|exact I]. Defined.

(** Ten minutes ahead: the reminder is due after five minutes, the due-now
    alert after ten. *)
Example scheduled_ten_minutes_ahead :
  timers Scenario.scheduled !! 1 = Some (300000, CbReminder Scenario.task1)
  ∧ timers Scenario.scheduled !! 2 = Some (600000, CbExact Scenario.task1)
  ∧ size (timers Scenario.scheduled) = 2%nat
  ∧ getScheduledNotificationCount Scenario.scheduled = 2%nat.
Proof. by vm_compute. Qed.

(** One minute overdue: nothing is scheduled. *)
Example overdue_schedules_nothing :
  let task2 := mkTask 2 "Call back" (-60000) "medium" "personal" false 0 in
  scheduleNotification task2 Scenario.start = Scenario.start.
Proof. reflexivity. Qed.

(** Without permission the call does nothing. *)
Example no_permission_schedules_nothing :
  let w := construct (Some default) 0 false in
  scheduleNotification Scenario.task1 w = w.
Proof. reflexivity. Qed.

(** ** Properties of the scheduler *)

(** C1. With the permission flag granted, [scheduleNotification(task)]
    leaves exactly two entries for the task (reminder and due-now) when the
    task is due more than five minutes from now, exactly one (due-now only)
    when it is due within the next five minutes, and none when it is
    overdue; in each case as many alert timers are pending for the task. *)
Theorem scheduleNotification_pending_entries task w :
  reachable w → permissionGranted w = true →
  let d := task_scheduledDate task - clock w in
  let w' := scheduleNotification task w in
  let m := scheduledNotifications w' in
  (5 * 60 * 1000 < d →
     pendingEntries (task_id task) w' = 2%nat
     ∧ has (reminderKey (task_id task)) m = true
     ∧ has (taskKey (task_id task)) m = true
     ∧ pendingTimers (task_id task) w' = 2%nat)
  ∧ (0 ≤ d ≤ 5 * 60 * 1000 →
     pendingEntries (task_id task) w' = 1%nat
     ∧ has (reminderKey (task_id task)) m = false
     ∧ has (taskKey (task_id task)) m = true
     ∧ pendingTimers (task_id task) w' = 1%nat)
  ∧ (d < 0 →
     pendingEntries (task_id task) w' = 0%nat
     ∧ pendingTimers (task_id task) w' = 0%nat).
Proof.
  intros Hr Hp. cbv zeta. apply reachable_Inv in Hr.
  pose proof (pendingTimers_le_entries (task_id task) _
                (Inv_scheduleNotification task w Hr)) as Hle.
  rewrite (pendingEntries_schedule task w Hr Hp) in *.
  destruct (scheduleNotification_has task w Hr Hp) as [-> ->].
  pose proof (scheduleNotification_far task w Hp) as Hfar.
  pose proof (scheduleNotification_near task w Hp) as Hnear.
  cbv zeta in Hfar, Hnear.
  set (d := task_scheduledDate task - clock w) in *.
  split; [|split]; intros Hd.
  - replace (d <? 0) with false in * by (symmetry; apply Z.ltb_ge; lia).
    replace (5 * 60 * 1000 <? d) with true in * by (symmetry; apply Z.ltb_lt; lia).
    destruct (Hfar Hd) as (_ & _ & Trem & Tex).
    assert (nextHandle w ≠ nextHandle w + 1) as Hne by lia.
    pose proof (pendingTimers_ge_2 (task_id task) _ _ _ _ _ _ _
                  Hne Trem eq_refl Tex eq_refl).
    repeat split; try reflexivity. simpl in Hle. lia.
  - replace (d <? 0) with false in * by (symmetry; apply Z.ltb_ge; lia).
    replace (5 * 60 * 1000 <? d) with false in * by (symmetry; apply Z.ltb_ge; lia).
    destruct (Hnear Hd) as (_ & Tex).
    pose proof (pendingTimers_ge_1 (task_id task) _ _ _ _ Tex eq_refl).
    repeat split; try reflexivity. simpl in Hle. lia.
  - replace (d <? 0) with true in * by (symmetry; apply Z.ltb_lt; lia).
    replace (5 * 60 * 1000 <? d) with false in * by (symmetry; apply Z.ltb_ge; lia).
    split; [reflexivity|]. simpl in Hle. lia.
Qed.

Lemma scheduleNotification_pending_entries_witness :
  pendingEntries 1 (scheduleNotification Scenario.task1 Scenario.start) = 2%nat.
Proof.
  destruct (scheduleNotification_pending_entries Scenario.task1 Scenario.start
              (reach_construct _ _ _) eq_refl) as [H _].
  by apply H.
Defined.

(** C4. Calling [scheduleNotification] twice in succession for the same task
    leaves at most two entries for it, and at most two pending alert timers:
    the second call cancels what the first one set up before arming anew, so
    the number of entries is that of a single call. *)
Theorem scheduleNotification_twice_at_most_two task w :
  reachable w →
  let w1 := scheduleNotification task w in
  let w2 := scheduleNotification task w1 in
  (pendingEntries (task_id task) w2 ≤ 2)%nat
  ∧ (pendingTimers (task_id task) w2 ≤ 2)%nat
  ∧ pendingEntries (task_id task) w2 = pendingEntries (task_id task) w1.
Proof.
  intros Hr w1 w2. apply reachable_Inv in Hr.
  pose proof (Inv_scheduleNotification task w Hr) as HI1. fold w1 in HI1.
  pose proof (Inv_scheduleNotification task w1 HI1) as HI2. fold w2 in HI2.
  pose proof (pendingEntries_le_2 (task_id task) w2) as Hle.
  pose proof (pendingTimers_le_entries (task_id task) w2 HI2) as Hte.
  split; [assumption|]. split; [lia|].
  destruct (permissionGranted w) eqn:Hp.
  - destruct (scheduleNotification_fields task w) as [Hg Hc].
    fold w1 in Hg, Hc. rewrite Hp in Hg.
    unfold w2. rewrite (pendingEntries_schedule task w1 HI1 Hg).
    unfold w1 at 3. rewrite (pendingEntries_schedule task w Hr Hp).
    by rewrite Hc.
  - assert (w1 = w) as Hw1 by (unfold w1, scheduleNotification; by rewrite Hp).
    unfold w2. rewrite Hw1. fold w1. by rewrite Hw1.
Qed.

Lemma scheduleNotification_twice_at_most_two_witness :
  (pendingTimers 1
     (scheduleNotification Scenario.task1
        (scheduleNotification Scenario.task1 Scenario.scheduled)) ≤ 2)%nat.
Proof.
  apply (scheduleNotification_twice_at_most_two Scenario.task1 Scenario.scheduled
           reachable_scheduled).
Defined.

(** C5. [clearNotification(id)] removes the due-now entry and the reminder
    entry of the id and cancels their timers, so that [isTaskScheduled(id)]
    is false right after; when nothing is recorded for the id the call
    changes nothing. *)
Theorem clearNotification_then_not_scheduled taskId w :
  reachable w →
  let w' := clearNotification taskId w in
  isTaskScheduled taskId w' = false
  ∧ scheduledNotifications w' !! taskKey taskId = None
  ∧ scheduledNotifications w' !! reminderKey taskId = None
  ∧ pendingTimers taskId w' = 0%nat
  ∧ (isTaskScheduled taskId w = false → w' = w).
Proof.
  intros Hr w'. apply reachable_Inv in Hr.
  destruct (clearNotification_has taskId w Hr) as [Ht Hrem].
  destruct (clearNotification_cleared taskId w Hr) as [Hs Hn].
  split; [exact Hs|].
  split; [by apply has_false|]. split; [by apply has_false|].
  split; [exact Hn|]. apply clearNotification_absent.
Qed.

Lemma clearNotification_then_not_scheduled_witness :
  isTaskScheduled 1 Scenario.reminderFired = true
  ∧ isTaskScheduled 1 (clearNotification 1 Scenario.reminderFired) = false.
Proof.
  split; [reflexivity|].
  apply (clearNotification_then_not_scheduled 1 Scenario.reminderFired
           reachable_reminderFired).
Defined.

(** C10. With the permission flag granted, [scheduleNotification] on an
    overdue task does exactly what [clearNotification] does: whatever was
    pending for the task is cancelled and removed, nothing is armed, and
    [isTaskScheduled(task.id)] is false afterwards; if something was recorded
    for the task, the state has changed. *)
Theorem scheduleNotification_overdue_clears task w :
  reachable w → permissionGranted w = true →
  task_scheduledDate task - clock w < 0 →
  scheduleNotification task w = clearNotification (task_id task) w
  ∧ isTaskScheduled (task_id task) (scheduleNotification task w) = false
  ∧ pendingTimers (task_id task) (scheduleNotification task w) = 0%nat
  ∧ (isTaskScheduled (task_id task) w = true → scheduleNotification task w ≠ w).
Proof.
  intros Hr Hp Hd.
  assert (scheduleNotification task w = clearNotification (task_id task) w) as E.
  { rewrite scheduleNotification_unfold by assumption. cbv zeta.
    by replace (_ <? 0) with true by (symmetry; apply Z.ltb_lt; lia). }
  rewrite E.
  destruct (clearNotification_cleared (task_id task) w (reachable_Inv w Hr))
    as (Hs & Ht).
  repeat split; try assumption.
  intros Hwas Heq. rewrite Heq in Hs. congruence.
Qed.

Lemma scheduleNotification_overdue_clears_witness :
  let late := step (EvTick 660000) Scenario.scheduled in
  isTaskScheduled 1 late = true
  ∧ isTaskScheduled 1 (scheduleNotification Scenario.task1 late) = false
  ∧ scheduleNotification Scenario.task1 late ≠ late.
Proof.
  intros late.
  assert (reachable late) as Hr.
  { apply reach_step; [apply reachable_scheduled|].
    simpl. vm_compute. discriminate. }
  destruct (scheduleNotification_overdue_clears Scenario.task1 late Hr eq_refl eq_refl)
    as (_ & Hs & _ & Hne).
  split; [reflexivity|]. split; [exact Hs|]. apply Hne. reflexivity.
Defined.






(** ** The due-now callback cleans up after itself; the reminder does not *)

(** When the due-now callback completes, the task's own key is gone. *)
Lemma fireTimer_exact_removes_entry h due task w :
  timers w !! h = Some (due, CbExact task) →
  threw (fireTimer h w) = false →
  scheduledNotifications (worldOf (fireTimer h w)) !! taskKey (task_id task) = None.
Proof.
  intros Hh. unfold fireTimer. rewrite Hh. simpl.
  destruct (showExactTimeNotification task (clearTimeout h w)); simpl; [|discriminate].
  intros _. apply lookup_delete_eq.
Qed.

(** Firing the reminder leaves [scheduledNotifications] as it was. *)
Lemma fireTimer_reminder_keeps_entries h due task w :
  timers w !! h = Some (due, CbReminder task) →
  scheduledNotifications (worldOf (fireTimer h w)) = scheduledNotifications w.
Proof.
  intros Hh. unfold fireTimer. rewrite Hh. simpl.
  by destruct (quiet_showReminderNotification task (clearTimeout h w)) as [-> _].
Qed.

(** C2 (fails for the reminder). Ten minutes ahead, the reminder fires
    after five: its timer is gone, yet its key stays in the map, so the task
    still counts as scheduled.  After the due-now alert has fired too, the
    task's own key has been removed by that callback while the reminder key
    is still there. *)
Theorem reminder_entry_survives_firing :
  scheduledNotifications Scenario.scheduled !! reminderKey 1 = Some 1
  ∧ mayFire 1 Scenario.atReminder
  ∧ timers Scenario.reminderFired !! 1 = None
  ∧ scheduledNotifications Scenario.reminderFired !! reminderKey 1 = Some 1
  ∧ isTaskScheduled 1 Scenario.reminderFired = true
  ∧ getScheduledNotificationCount Scenario.reminderFired = 2%nat
  ∧ scheduledNotifications Scenario.dueFired !! taskKey 1 = None
  ∧ scheduledNotifications Scenario.dueFired !! reminderKey 1 = Some 1
  ∧ pendingTimers 1 Scenario.dueFired = 0%nat
  ∧ isTaskScheduled 1 Scenario.dueFired = true
  ∧ getScheduledNotificationCount Scenario.dueFired = 1%nat.
Proof.
  split; [reflexivity|]. split; [by_evaluation|].
  repeat split; by vm_compute.
Qed.

(** ** Errors of the [Notification] constructor *)

(** Neither [show] method has a handler around [new Notification]: with the
    flag set, a throwing constructor makes both throw. *)
Lemma show_throws task w :
  permissionGranted w = true → ctorThrows w = true →
  showReminderNotification task w = Throw w
  ∧ showExactTimeNotification task w = Throw w
  ∧ runCallback (CbReminder task) w = Throw w
  ∧ runCallback (CbExact task) w = Throw w.
Proof.
  intros Hp Hc. unfold runCallback, showReminderNotification,
    showExactTimeNotification, newNotification.
  by rewrite Hp, Hc.
Qed.

(** [testDesktopNotification] wraps the same constructor in [try]/[catch]
    and answers [false]. *)
Lemma testDesktopNotification_catches w :
  platformPermission w = Some granted → ctorThrows w = true →
  testDesktopNotification w = Ok false w.
Proof.
  intros Hp Hc. unfold testDesktopNotification, newNotification. by rewrite Hp, Hc.
Qed.

(** An exception leaving a callback ends that callback only: the other
    pending timers are as they were. *)
Lemma fireTimer_throw_isolated h h' w :
  threw (fireTimer h w) = true → h' ≠ h →
  timers (worldOf (fireTimer h w)) !! h' = timers w !! h'.
Proof.
  unfold fireTimer. destruct (timers w !! h) as [[due cb]|]; [|discriminate].
  intros Hthrew Hne.
  assert (worldOf (runCallback cb (clearTimeout h w)) = clearTimeout h w) as ->.
  { destruct cb as [t|t|n]; simpl in *; [| |discriminate].
    - unfold showReminderNotification, newNotification in *.
      destruct (negb _); [discriminate|]. by destruct (ctorThrows _).
    - unfold showExactTimeNotification, newNotification in *.
      destruct (negb _); [discriminate|]. by destruct (ctorThrows _). }
  simpl. by apply lookup_delete_ne.
Qed.

(** C3 (fails). The platform refuses the constructor.  The reminder
    callback and the due-now callback both end with the exception, nothing
    is reported as a boolean, and the due-now entry is not removed because
    the [delete] after the throwing call is skipped.  The diagnostic
    [testDesktopNotification] in the same state catches the error and
    returns [false]. *)
Theorem construction_error_leaves_callback :
  let w := Scenario.refusingAtDue in
  let afterReminder := worldOf (fireTimer 1 w) in
  let afterDue := worldOf (fireTimer 2 afterReminder) in
  permissionGranted w = true ∧ ctorThrows w = true
  ∧ mayFire 1 w
  ∧ fireTimer 1 w = Throw afterReminder
  ∧ mayFire 2 afterReminder
  ∧ fireTimer 2 afterReminder = Throw afterDue
  ∧ timers afterDue !! 2 = None
  ∧ scheduledNotifications afterDue !! taskKey 1 = Some 2
  ∧ testDesktopNotification w = Ok false w.
Proof.
  cbv zeta.
  split; [reflexivity|]. split; [reflexivity|].
  split; [by_evaluation|]. split; [by vm_compute|].
  split; [by_evaluation|]. split; [by vm_compute|].
  split; [by vm_compute|]. split; [by vm_compute|].
  by apply testDesktopNotification_catches.
Qed.

(** ** [requestPermission] *)

Lemma requestPermission_granted w :
  platformPermission w = Some granted →
  requestPermission w = Returned true (set_permissionGranted true w).
Proof. intros Hp. unfold requestPermission. by rewrite Hp. Qed.

(** Already denied: [false] at once, without a prompt, and without touching
    the flag. *)
Lemma requestPermission_denied w :
  platformPermission w = Some denied →
  requestPermission w = Returned false w.
Proof. intros Hp. unfold requestPermission. by rewrite Hp. Qed.

Lemma requestPermission_default w :
  platformPermission w = Some default →
  requestPermission w = Prompting w.
Proof. intros Hp. unfold requestPermission. by rewrite Hp. Qed.

(** After the prompt the call resolves to whether the user granted, and the
    flag agrees with the result. *)
Lemma requestPermission_resume_granted p w :
  is_Some (platformPermission w) →
  let r := requestPermission_resume (Some p) (promptSettles (Some p) w) in
  fst r = bool_decide (p = granted)
  ∧ hasPermission (snd r) = bool_decide (p = granted).
Proof.
  intros [q Hq]. unfold requestPermission_resume, promptSettles, checkPermission.
  rewrite Hq. simpl. by split.
Qed.

(** The denied branch returns without touching the flag: entered with a
    flag that is still [true] from start-up, it would leave it [true]. *)
Example requestPermission_denied_keeps_flag :
  platformPermission Scenario.revoked = Some denied
  ∧ requestPermission Scenario.revoked = Returned false Scenario.revoked
  ∧ hasPermission Scenario.revoked = true
  ∧ hasPermission (step EvRequestPermission Scenario.revoked) = true.
Proof. by repeat split. Qed.




(** ** Properties of the routes *)

Lemma sortInsert_Permutation compareFn x l :
  Permutation (x :: l) (sortInsert compareFn x l).
Proof.
  induction l as [|y rest IH]; simpl; [reflexivity|].
  destruct (0 <? compareFn x y); [|reflexivity].
  rewrite perm_swap. by constructor.
Qed.

Lemma Array_sort_Permutation compareFn l : Permutation l (Array_sort compareFn l).
Proof.
  induction l as [|x rest IH]; simpl; [reflexivity|].
  rewrite <- sortInsert_Permutation. by constructor.
Qed.

Lemma sortInsert_ascending x l :
  ascending l → ascending (sortInsert byScheduledDate x l).
Proof.
  unfold ascending. induction 1 as [|y rest Hsorted IH Hall]; simpl.
  - repeat constructor.
  - unfold byScheduledDate at 1.
    destruct (0 <? task_scheduledDate x - task_scheduledDate y) eqn:Hcmp.
    + apply Z.ltb_lt in Hcmp. constructor; [exact IH|].
      rewrite <- sortInsert_Permutation. constructor; [lia|exact Hall].
    + apply Z.ltb_ge in Hcmp. constructor; [by constructor|].
      constructor; [lia|].
      eapply Forall_impl; [exact Hall|]. simpl. intros z Hz. lia.
Qed.

Lemma Array_sort_ascending l : ascending (Array_sort byScheduledDate l).
Proof.
  induction l as [|x rest IH]; simpl.
  - constructor.
  - by apply sortInsert_ascending.
Qed.

(** C9. Whatever the rows of the table, the list that [getTasks] returns
    and that [GET /api/tasks] sends is a rearrangement of the rows in
    ascending order of [scheduledDate]; the query reaching the database is
    all it takes for the route to answer [200] with that list. *)
Theorem getTasks_sorted_by_scheduledDate db :
  db_online db = true →
  ∃ tasks,
    getTasks db = Some tasks
    ∧ getTasksRoute db = mkResponse 200 (SendTasks tasks)
    ∧ ascending tasks
    ∧ Permutation (db_rows db) tasks.
Proof.
  intros Hon. exists (Array_sort byScheduledDate (db_rows db)).
  unfold getTasksRoute, getTasks. rewrite Hon. simpl.
  repeat split.
  - apply Array_sort_ascending.
  - apply Array_sort_Permutation.
Qed.

(** A title that is the empty string does not pass the schema. *)
Lemma insertTaskSchema_empty_title `{DateParser} fields :
  getProp "title" fields = Some (JStr "") →
  ∃ issues,
    insertTaskSchema_parse (Some (JObj fields)) = inl issues
    ∧ mkIssue too_small ["title"] "Title is required" ∈ issues.
Proof.
  intros Ht. unfold insertTaskSchema_parse. rewrite Ht. simpl.
  eexists. split; [reflexivity|]. simpl. apply list_elem_of_here.
Qed.

(** A thrown [ZodError] carries at least one issue. *)
Lemma insertTaskSchema_issues `{DateParser} body issues :
  insertTaskSchema_parse body = inl issues → issues ≠ [].
Proof.
  unfold insertTaskSchema_parse.
  destruct body as [[| | | | |fields]|]; try (intros [= <-]; discriminate).
  unfold zStringMin1, zDateString, zStringDefault, zString.
  destruct (getProp "title" fields) as [[| | |t| |]|]; simpl;
    try (intros [= <-]; discriminate).
  destruct (String.length t <? 1)%nat; simpl; [intros [= <-]; discriminate|].
  destruct (getProp "scheduledDate" fields) as [[| | |d| |]|]; simpl;
    try (intros [= <-]; discriminate).
  destruct (getProp "priority" fields) as [[| | |p| |]|]; simpl;
    try (intros [= <-]; discriminate);
  destruct (getProp "category" fields) as [[| | |c| |]|]; simpl;
    try (intros [= <-]; discriminate); discriminate.
Qed.

(** C8. When the body of [POST /api/tasks] does not pass
    [insertTaskSchema], the answer is [400] with
    [{error: "Invalid task data", details: <the issues>}], there is at least
    one issue, and the store is exactly what it was: [createTask] is not
    reached. *)
Theorem post_invalid_body_rejected `{DateParser} reqBody db issues :
  insertTaskSchema_parse reqBody = inl issues →
  postTasksRoute reqBody db =
    (mkResponse 400 (SendError "Invalid task data" (Some issues)), db)
  ∧ issues ≠ []
  ∧ snd (postTasksRoute reqBody db) = db.
Proof.
  intros Hparse. pose proof (insertTaskSchema_issues _ _ Hparse) as Hne.
  unfold postTasksRoute. rewrite Hparse. by repeat split.
Qed.

Lemma getTasks_sorted_by_scheduledDate_witness :
  ∃ tasks,
    getTasks Scenario.sampleDb = Some tasks
    ∧ getTasksRoute Scenario.sampleDb = mkResponse 200 (SendTasks tasks)
    ∧ ascending tasks
    ∧ Permutation (db_rows Scenario.sampleDb) tasks.
Proof. exact (getTasks_sorted_by_scheduledDate Scenario.sampleDb eq_refl). Defined.

Example getTasks_sampleDb :
  option_map (map task_id) (getTasks Scenario.sampleDb) = Some [2; 3; 1].
Proof. reflexivity. Qed.

Lemma post_invalid_body_rejected_witness :
  res_status (fst (@postTasksRoute Scenario.sampleDates Scenario.emptyTitleBody Scenario.sampleDb)) = 400
  ∧ snd (@postTasksRoute Scenario.sampleDates Scenario.emptyTitleBody Scenario.sampleDb) = Scenario.sampleDb.
Proof.
  destruct (@post_invalid_body_rejected Scenario.sampleDates Scenario.emptyTitleBody Scenario.sampleDb _ eq_refl)
    as (Hres & _ & Hdb).
  split; [by rewrite Hres|exact Hdb].
Defined.

Example post_valid_body_creates :
  let body := Some (JObj [("title", JStr "Buy milk");
                          ("scheduledDate", JStr "2025-01-01T10:00:00.000Z");
                          ("priority", JStr "")]) in
  @postTasksRoute Scenario.sampleDates body Scenario.sampleDb =
    (mkResponse 201
       (SendTask (mkTask 4 "Buy milk" 1735725600000 "medium" "personal" false 1000)),
     mkDb (db_rows Scenario.sampleDb
           ++ [mkTask 4 "Buy milk" 1735725600000 "medium" "personal" false 1000])
          5 1000 true).
Proof. reflexivity. Qed.

(** * Further properties *)

(** ** Recorded handles belong to their own timers *)

Lemma Exclusive_sameBooks w w' : sameBooks w w' → Exclusive w → Exclusive w'.
Proof.
  intros (Hm & Ht & _) HE k h d cb. rewrite Hm, Ht. apply HE.
Qed.

Lemma Exclusive_clearTimeout h w : Exclusive w → Exclusive (clearTimeout h w).
Proof.
  intros HE k h' d cb Hk Hv. simpl in *.
  apply lookup_delete_Some in Hv as [_ Hv]. by eapply HE.
Qed.

Lemma Exclusive_delete_key k w :
  Exclusive w → Exclusive (set_scheduledNotifications (delete k (scheduledNotifications w)) w).
Proof.
  intros HE k' h d cb Hk Hv. simpl in *.
  apply lookup_delete_Some in Hk as [_ Hk]. by eapply HE.
Qed.

(** A timer under a fresh handle cannot be mistaken for a recorded one. *)
Lemma Exclusive_setTimeout cb delay w :
  Inv w → Exclusive w → Exclusive (snd (setTimeout cb delay w)).
Proof.
  intros HI HE k h d cb' Hk Hv. simpl in *.
  pose proof (inv_map _ HI _ _ Hk) as Hb.
  rewrite lookup_insert_ne in Hv by lia. by eapply HE.
Qed.

Lemma Exclusive_arm cb k delay w :
  cbKey cb = Some k → Inv w → Exclusive w → Exclusive (arm cb k delay w).
Proof.
  intros Hcb HI HE k' h d cb' Hk Hv. unfold arm in *. simpl in *.
  apply lookup_insert_Some in Hk as [[<- <-]|[Hne Hk]].
  - rewrite lookup_insert_eq in Hv. by injection Hv as _ <-.
  - pose proof (inv_map _ HI _ _ Hk) as Hb.
    rewrite lookup_insert_ne in Hv by lia. by eapply HE.
Qed.

Lemma Exclusive_clearEntry k w : Exclusive w → Exclusive (clearEntry k w).
Proof.
  intros HE. unfold clearEntry.
  destruct (scheduledNotifications w !! k) as [h|]; [|assumption].
  case_bool_decide; [|assumption].
  apply (Exclusive_delete_key k (clearTimeout h w)). by apply Exclusive_clearTimeout.
Qed.

Lemma Exclusive_clearNotification taskId w :
  Exclusive w → Exclusive (clearNotification taskId w).
Proof. intros HE. unfold clearNotification. by do 2 apply Exclusive_clearEntry. Qed.

Lemma Exclusive_scheduleNotification task w :
  Inv w → Exclusive w → Exclusive (scheduleNotification task w).
Proof.
  intros HI HE.
  destruct (permissionGranted w) eqn:Hp;
    [|unfold scheduleNotification; by rewrite Hp].
  rewrite scheduleNotification_unfold by assumption. cbv zeta.
  pose proof (Inv_clearNotification (task_id task) w HI) as HI1.
  pose proof (Exclusive_clearNotification (task_id task) w HE) as HE1.
  pose proof (clearNotification_lookup (task_id task) (reminderKey (task_id task)) w HI) as Hr.
  rewrite decide_True in Hr by (by right).
  destruct (_ <? 0); [assumption|].
  destruct (_ <? _).
  - apply Exclusive_arm; [reflexivity|by apply Inv_arm|by apply Exclusive_arm].
  - by apply Exclusive_arm.
Qed.

Lemma Exclusive_clearAllNotifications w : Exclusive (clearAllNotifications w).
Proof. intros k h d cb Hk. simpl in Hk. by rewrite lookup_empty in Hk. Qed.

(** Showing a notification adds at most a deferred [close] under a fresh
    handle. *)
Lemma Exclusive_close n delay ns w :
  Inv w → Exclusive w →
  Exclusive (snd (setTimeout (CbClose n) delay (playNotificationSound (set_notifications ns w)))).
Proof.
  intros HI HE. apply Exclusive_setTimeout.
  - by apply (Inv_sameBooks w).
  - by apply (Exclusive_sameBooks w).
Qed.

Lemma Exclusive_showReminderNotification task w :
  Inv w → Exclusive w → Exclusive (worldOf (showReminderNotification task w)).
Proof.
  intros HI HE. unfold showReminderNotification, newNotification.
  destruct (negb _); [assumption|]. destruct (ctorThrows w); [assumption|].
  by apply Exclusive_close.
Qed.

Lemma Exclusive_showExactTimeNotification task w :
  Inv w → Exclusive w → Exclusive (worldOf (showExactTimeNotification task w)).
Proof.
  intros HI HE. unfold showExactTimeNotification, newNotification.
  destruct (negb _); [assumption|]. destruct (ctorThrows w); [assumption|].
  by apply Exclusive_close.
Qed.

Lemma Exclusive_testDesktopNotification w :
  Inv w → Exclusive w → Exclusive (worldOf (testDesktopNotification w)).
Proof.
  intros HI HE. unfold testDesktopNotification, newNotification.
  destruct (platformPermission w) as [[]|]; try assumption.
  destruct (ctorThrows w); [assumption|]. simpl worldOf.
  pose proof (Exclusive_close (length (notifications w)) 5000
                (notifications w ++ [mkNotif "test-notification" false true]) w HI HE) as HC.
  eapply Exclusive_sameBooks; [|exact HC]. by repeat split.
Qed.

Lemma Exclusive_fireTimer h w :
  Inv w → Exclusive w → Exclusive (worldOf (fireTimer h w)).
Proof.
  intros HI HE. unfold fireTimer.
  destruct (timers w !! h) as [[d cb]|]; [|assumption].
  pose proof (Inv_clearTimeout h w HI) as HI0.
  pose proof (Exclusive_clearTimeout h w HE) as HE0.
  destruct cb as [task|task|n]; simpl runCallback.
  - by apply Exclusive_showReminderNotification.
  - pose proof (Exclusive_showExactTimeNotification task _ HI0 HE0) as HE'.
    destruct (showExactTimeNotification task (clearTimeout h w)) as [[] w'|w'];
      simpl in *; [|assumption].
    by apply Exclusive_delete_key.
  - simpl. by apply (Exclusive_sameBooks (clearTimeout h w)).
Qed.

Lemma Exclusive_step e w : Inv w → Exclusive w → Exclusive (step e w).
Proof.
  intros HI HE. destruct e; simpl.
  - exact (Exclusive_sameBooks _ _ (sameBooks_checkPermission w) HE).
  - unfold requestPermission.
    by destruct (platformPermission w) as [[]|].
  - pose proof (Exclusive_sameBooks _ _ (sameBooks_promptSettles reply w) HE) as HE'.
    destruct reply as [p|]; simpl; [|assumption].
    eapply Exclusive_sameBooks; [apply sameBooks_checkPermission|].
    eapply Exclusive_sameBooks; [|exact HE']. by repeat split.
  - by apply Exclusive_scheduleNotification.
  - by apply Exclusive_clearNotification.
  - apply Exclusive_clearAllNotifications.
  - by apply Exclusive_testDesktopNotification.
  - pose proof (Inv_sameBooks _ _ (sameBooks_promptSettles (Some reply) w) HI) as HI'.
    pose proof (Exclusive_sameBooks _ _ (sameBooks_promptSettles (Some reply) w) HE) as HE'.
    unfold testDesktopNotification_then. case_bool_decide; [|assumption].
    pose proof (Exclusive_testDesktopNotification _ HI' HE') as HQ.
    by destruct (testDesktopNotification _).
  - by apply Exclusive_fireTimer.
  - by apply (Exclusive_sameBooks w).
  - exact (Exclusive_sameBooks _ _ (sameBooks_promptSettles (Some p) w) HE).
  - by apply (Exclusive_sameBooks w).
Qed.

Lemma reachable_Exclusive w : reachable w → Exclusive w.
Proof.
  induction 1 as [p now throws|e w Hr IH He].
  - intros k h d cb Hk. unfold construct in Hk.
    rewrite (proj1 (sameBooks_checkPermission _)) in Hk. simpl in Hk.
    by rewrite lookup_empty in Hk.
  - apply Exclusive_step; [by apply reachable_Inv|assumption].
Qed.

(** ** Keys of different tasks never coincide *)

Lemma string_length_app (s t : string) :
  String.length (s +:+ t) = (String.length s + String.length t)%nat.
Proof. induction s as [|a s IH]; simpl; [reflexivity|]. by rewrite IH. Qed.

Lemma string_app_inv_r (s1 s2 t : string) : s1 +:+ t = s2 +:+ t → s1 = s2.
Proof.
  revert s2. induction s1 as [|a s1 IH]; intros [|b s2] Heq; simpl in Heq.
  - reflexivity.
  - apply (f_equal String.length) in Heq.
    change (String.length t = S (String.length (s2 +:+ t))) in Heq.
    rewrite string_length_app in Heq. lia.
  - apply (f_equal String.length) in Heq.
    change (S (String.length (s1 +:+ t)) = String.length t) in Heq.
    rewrite string_length_app in Heq. lia.
  - injection Heq as -> Heq. f_equal. by apply IH.
Qed.

Lemma reminderKey_inj a b : reminderKey a = reminderKey b → a = b.
Proof.
  unfold reminderKey. intros [= Heq].
  apply string_app_inv_r in Heq. by apply (inj pretty) in Heq.
Qed.

Lemma taskKey_inj a b : taskKey a = taskKey b → a = b.
Proof. by intros [= ->]. Qed.

(** The key of an alert callback names its task, and the other way
    round. *)
Lemma cbKey_taskId cb taskId :
  cbKey cb = Some (taskKey taskId) ∨ cbKey cb = Some (reminderKey taskId) →
  cbTaskId cb = Some taskId.
Proof.
  destruct cb as [t|t|n]; simpl; intros [H|H]; try discriminate.
  - assert (reminderKey (task_id t) = reminderKey taskId) as E by congruence.
    apply reminderKey_inj in E. by rewrite E.
  - assert (taskKey (task_id t) = taskKey taskId) as E by congruence.
    apply taskKey_inj in E. by rewrite E.
Qed.

Lemma cbTaskId_key cb taskId :
  cbTaskId cb = Some taskId → ∃ k, cbKey cb = Some k.
Proof. destruct cb; simpl; intros [=]; eauto. Qed.

(** ** Where alert timers come from *)

Lemma pendingTimers_mono taskId w w' :
  noNewAlerts taskId w w' → (pendingTimers taskId w' ≤ pendingTimers taskId w)%nat.
Proof.
  intros Hno. unfold pendingTimers. apply map_subseteq_size.
  apply map_subseteq_spec. intros h [d cb] Hv.
  apply map_lookup_filter_Some in Hv as [Hv Hcb]. simpl in Hcb.
  apply map_lookup_filter_Some. split; [|exact Hcb]. by apply (Hno h d cb).
Qed.

Lemma noNewAlerts_refl taskId w : noNewAlerts taskId w w.
Proof. by intros h d cb Hv _. Qed.

Lemma noNewAlerts_trans taskId w1 w2 w3 :
  noNewAlerts taskId w1 w2 → noNewAlerts taskId w2 w3 → noNewAlerts taskId w1 w3.
Proof. intros H12 H23 h d cb Hv Hcb. apply H12; [|exact Hcb]. by apply H23. Qed.

Lemma noNewAlerts_sub taskId w w' :
  (∀ h v, timers w' !! h = Some v → timers w !! h = Some v) →
  noNewAlerts taskId w w'.
Proof. intros Hsub h d cb Hv _. by apply Hsub. Qed.

Lemma noNewAlerts_quiet taskId w w' : quiet w w' → noNewAlerts taskId w w'.
Proof.
  intros (_ & _ & Hq) h d cb Hv Hcb.
  destruct (cbTaskId_key _ _ Hcb) as [k Hk]. by apply (Hq h d cb k).
Qed.

Lemma noNewAlerts_arm taskId cb k delay w :
  cbTaskId cb ≠ Some taskId → noNewAlerts taskId w (arm cb k delay w).
Proof.
  intros Hcb h d cb' Hv Hcb'. rewrite arm_timers in Hv.
  apply lookup_insert_Some in Hv as [[_ Heq]|[_ Hv]]; [|exact Hv].
  injection Heq as _ <-. contradiction.
Qed.

Lemma noNewAlerts_clearNotification taskId other w :
  noNewAlerts taskId w (clearNotification other w).
Proof. apply noNewAlerts_sub. intros h v. apply clearNotification_timers_sub. Qed.

Lemma noNewAlerts_scheduleNotification taskId task w :
  task_id task ≠ taskId → noNewAlerts taskId w (scheduleNotification task w).
Proof.
  intros Hne.
  destruct (permissionGranted w) eqn:Hp;
    [|unfold scheduleNotification; rewrite Hp; apply noNewAlerts_refl].
  rewrite scheduleNotification_unfold by assumption. cbv zeta.
  pose proof (noNewAlerts_clearNotification taskId (task_id task) w) as H1.
  assert (∀ t, task_id t = task_id task → Some (task_id t) ≠ Some taskId) as Hid
    by (intros t Ht [= E]; congruence).
  destruct (_ <? 0); [exact H1|].
  destruct (_ <? _).
  - eapply noNewAlerts_trans; [|apply noNewAlerts_arm; simpl; by apply Hid].
    eapply noNewAlerts_trans; [exact H1|]. apply noNewAlerts_arm. simpl. by apply Hid.
  - eapply noNewAlerts_trans; [exact H1|]. apply noNewAlerts_arm. simpl. by apply Hid.
Qed.

Lemma noNewAlerts_clearAllNotifications taskId w :
  noNewAlerts taskId w (clearAllNotifications w).
Proof.
  apply noNewAlerts_sub. intros h v Hv. simpl in Hv.
  destruct (clearAll_fold w (scheduledNotifications w)) as (_ & _ & Ht).
  by apply Ht in Hv as [Hv _].
Qed.

Lemma noNewAlerts_fireTimer taskId h w :
  noNewAlerts taskId w (worldOf (fireTimer h w)).
Proof.
  unfold fireTimer. destruct (timers w !! h) as [[d cb]|]; [|apply noNewAlerts_refl].
  assert (noNewAlerts taskId w (clearTimeout h w)) as H0.
  { apply noNewAlerts_sub. intros h' v Hv. simpl in Hv.
    by apply lookup_delete_Some in Hv as [_ Hv]. }
  eapply noNewAlerts_trans; [exact H0|].
  destruct cb as [task|task|n]; simpl runCallback.
  - apply noNewAlerts_quiet, quiet_showReminderNotification.
  - pose proof (noNewAlerts_quiet taskId _ _
                  (quiet_showExactTimeNotification task (clearTimeout h w))) as HQ.
    by destruct (showExactTimeNotification task (clearTimeout h w)) as [[] w'|w'].
  - by apply noNewAlerts_sub.
Qed.

Lemma timers_checkPermission w : timers (checkPermission w) = timers w.
Proof. apply sameBooks_checkPermission. Qed.

Lemma timers_promptSettles reply w : timers (promptSettles reply w) = timers w.
Proof. apply sameBooks_promptSettles. Qed.

Lemma timers_requestPermission_resume reply w :
  timers (snd (requestPermission_resume reply w)) = timers w.
Proof.
  destruct reply as [p|]; [|reflexivity].
  unfold requestPermission_resume. cbv zeta. unfold snd.
  by rewrite timers_checkPermission.
Qed.

(** Only [scheduleNotification] for the task itself adds an alert timer of
    the task. *)
Lemma noNewAlerts_step taskId e w :
  ¬ schedules taskId e → noNewAlerts taskId w (step e w).
Proof.
  intros Hno. destruct e; unfold step; simpl in Hno.
  - apply noNewAlerts_sub. intros h v. unfold refreshPermissionStatus, snd.
    by rewrite timers_checkPermission.
  - unfold requestPermission.
    destruct (platformPermission w) as [[]|]; by apply noNewAlerts_sub.
  - apply noNewAlerts_sub. intros h v.
    by rewrite timers_requestPermission_resume, timers_promptSettles.
  - apply noNewAlerts_scheduleNotification. tauto.
  - apply noNewAlerts_clearNotification.
  - apply noNewAlerts_clearAllNotifications.
  - apply noNewAlerts_quiet, quiet_testDesktopNotification.
  - assert (noNewAlerts taskId w (promptSettles (Some reply) w)) as H0.
    { apply noNewAlerts_sub. intros h v. by rewrite timers_promptSettles. }
    eapply noNewAlerts_trans; [exact H0|].
    unfold testDesktopNotification_then. case_bool_decide; [|apply noNewAlerts_refl].
    pose proof (noNewAlerts_quiet taskId _ _
                  (quiet_testDesktopNotification (promptSettles (Some reply) w))) as HQ.
    by destruct (testDesktopNotification _).
  - apply noNewAlerts_fireTimer.
  - by apply noNewAlerts_sub.
  - apply noNewAlerts_sub. intros h v. by rewrite timers_promptSettles.
  - by apply noNewAlerts_sub.
Qed.

Lemma noNewAlerts_run taskId events w :
  Forall (λ e, ¬ schedules taskId e) events → noNewAlerts taskId w (run events w).
Proof.
  intros Hall. revert w. induction Hall as [|e events He _ IH]; intros w.
  - apply noNewAlerts_refl.
  - simpl. eapply noNewAlerts_trans; [by apply noNewAlerts_step|]. apply IH.
Qed.

(** ** One task's alerts and another's *)

(** Clearing a key cancels no timer but the one recorded for it. *)
Lemma clearEntry_keeps k w h d cb :
  Exclusive w → timers w !! h = Some (d, cb) → cbKey cb ≠ Some k →
  timers (clearEntry k w) !! h = Some (d, cb).
Proof.
  intros HE Hv Hk. unfold clearEntry.
  destruct (scheduledNotifications w !! k) as [h0|] eqn:Hk0; [|assumption].
  case_bool_decide; [|assumption]. simpl.
  rewrite lookup_delete_ne; [assumption|].
  intros ->. apply Hk. by apply (HE k h d cb).
Qed.

Lemma clearNotification_keeps taskId w h d cb :
  Exclusive w → timers w !! h = Some (d, cb) → cbTaskId cb ≠ Some taskId →
  timers (clearNotification taskId w) !! h = Some (d, cb).
Proof.
  intros HE Hv Hid. unfold clearNotification.
  apply clearEntry_keeps; [by apply Exclusive_clearEntry| |].
  - apply clearEntry_keeps; [assumption..|].
    intros Hk. apply Hid, cbKey_taskId. by left.
  - intros Hk. apply Hid, cbKey_taskId. by right.
Qed.

Lemma arm_keeps cb k delay w h v :
  Inv w → timers w !! h = Some v → timers (arm cb k delay w) !! h = Some v.
Proof.
  intros HI Hv. rewrite arm_timers.
  pose proof (inv_timers _ HI _ _ Hv). by rewrite lookup_insert_ne by lia.
Qed.

Lemma scheduleNotification_keeps task w h d cb :
  Inv w → Exclusive w → timers w !! h = Some (d, cb) →
  cbTaskId cb ≠ Some (task_id task) →
  timers (scheduleNotification task w) !! h = Some (d, cb).
Proof.
  intros HI HE Hv Hid.
  destruct (permissionGranted w) eqn:Hp;
    [|unfold scheduleNotification; by rewrite Hp].
  rewrite scheduleNotification_unfold by assumption. cbv zeta.
  pose proof (Inv_clearNotification (task_id task) w HI) as HI1.
  pose proof (clearNotification_keeps (task_id task) w h d cb HE Hv Hid) as Hv1.
  pose proof (clearNotification_lookup (task_id task) (reminderKey (task_id task)) w HI) as Hr.
  rewrite decide_True in Hr by (by right).
  destruct (_ <? 0); [assumption|].
  destruct (_ <? _).
  - apply arm_keeps; [by apply Inv_arm|]. by apply arm_keeps.
  - by apply arm_keeps.
Qed.

Lemma pendingTimers_same taskId w w' :
  noNewAlerts taskId w w' → noNewAlerts taskId w' w →
  pendingTimers taskId w' = pendingTimers taskId w.
Proof.
  intros H1 H2. apply Nat.le_antisymm; by apply pendingTimers_mono.
Qed.

Lemma isTaskScheduled_lookup taskId w w' :
  scheduledNotifications w' !! taskKey taskId = scheduledNotifications w !! taskKey taskId →
  scheduledNotifications w' !! reminderKey taskId
    = scheduledNotifications w !! reminderKey taskId →
  isTaskScheduled taskId w' = isTaskScheduled taskId w.
Proof. intros Ht Hr. unfold isTaskScheduled, has. by rewrite Ht, Hr. Qed.

(** X1. In every state the service can reach, a task has at most two alert
    timers pending, and never two of the same kind: two pending reminder
    timers of one task id are one and the same timer, and likewise for the
    due-now timers. *)
Theorem reachable_one_timer_per_alert w taskId :
  reachable w →
  (pendingTimers taskId w ≤ 2)%nat
  ∧ (∀ h1 h2 d1 d2 t1 t2,
       task_id t1 = taskId → task_id t2 = taskId →
       timers w !! h1 = Some (d1, CbReminder t1) →
       timers w !! h2 = Some (d2, CbReminder t2) → h1 = h2)
  ∧ (∀ h1 h2 d1 d2 t1 t2,
       task_id t1 = taskId → task_id t2 = taskId →
       timers w !! h1 = Some (d1, CbExact t1) →
       timers w !! h2 = Some (d2, CbExact t2) → h1 = h2).
Proof.
  intros Hr. apply reachable_Inv in Hr as HI.
  split; [|split].
  - pose proof (pendingTimers_le_entries taskId w HI).
    pose proof (pendingEntries_le_2 taskId w). lia.
  - intros h1 h2 d1 d2 t1 t2 E1 E2 H1 H2.
    pose proof (inv_owned _ HI _ _ _ _ H1 eq_refl) as K1.
    pose proof (inv_owned _ HI _ _ _ _ H2 eq_refl) as K2.
    rewrite E1 in K1. rewrite E2 in K2. congruence.
  - intros h1 h2 d1 d2 t1 t2 E1 E2 H1 H2.
    pose proof (inv_owned _ HI _ _ _ _ H1 eq_refl) as K1.
    pose proof (inv_owned _ HI _ _ _ _ H2 eq_refl) as K2.
    rewrite E1 in K1. rewrite E2 in K2. congruence.
Qed.

Lemma scheduleNotification_frame task other w :
  Inv w → Exclusive w → task_id task ≠ other →
  let w' := scheduleNotification task w in
  scheduledNotifications w' !! taskKey other = scheduledNotifications w !! taskKey other
  ∧ scheduledNotifications w' !! reminderKey other
      = scheduledNotifications w !! reminderKey other
  ∧ isTaskScheduled other w' = isTaskScheduled other w
  ∧ (∀ h d cb, cbTaskId cb = Some other →
       (timers w' !! h = Some (d, cb) ↔ timers w !! h = Some (d, cb)))
  ∧ pendingTimers other w' = pendingTimers other w.
Proof.
  intros HI HE Hne w'.
  assert (∀ k, k = taskKey other ∨ k = reminderKey other →
               scheduledNotifications w' !! k = scheduledNotifications w !! k) as Hkeys.
  { intros k Hk. unfold w'.
    destruct (permissionGranted w) eqn:Hp;
      [|unfold scheduleNotification; by rewrite Hp].
    assert (k ≠ taskKey (task_id task) ∧ k ≠ reminderKey (task_id task)) as [N1 N2].
    { destruct Hk as [-> | ->]; split; intros E.
      - by apply taskKey_inj in E.
      - by apply taskKey_ne_reminderKey in E.
      - symmetry in E. by apply taskKey_ne_reminderKey in E.
      - by apply reminderKey_inj in E. }
    rewrite scheduleNotification_unfold by assumption. cbv zeta.
    pose proof (clearNotification_lookup (task_id task) k w HI) as Hc.
    rewrite decide_False in Hc by (intros [?|?]; congruence).
    destruct (_ <? 0); [assumption|].
    destruct (_ <? _); rewrite !arm_lookup;
      rewrite ?decide_False by congruence; assumption. }
  assert (noNewAlerts other w w') as Hfwd
    by (by apply noNewAlerts_scheduleNotification).
  assert (noNewAlerts other w' w) as Hbwd.
  { intros h d cb Hv Hcb. apply scheduleNotification_keeps; try assumption.
    rewrite Hcb. intros [= E]. congruence. }
  split; [apply Hkeys; by left|]. split; [apply Hkeys; by right|].
  split; [apply isTaskScheduled_lookup; apply Hkeys; [by left|by right]|].
  split; [|by apply pendingTimers_same].
  intros h d cb Hcb. split; intros Hv; [by apply Hfwd|by apply Hbwd].
Qed.

(** X2. Scheduling one task leaves every other task alone: the entries
    recorded for a different id, whether it counts as scheduled, and its
    pending alert timers are exactly what they were. *)
Theorem scheduleNotification_other_task task other w :
  reachable w → task_id task ≠ other →
  let w' := scheduleNotification task w in
  scheduledNotifications w' !! taskKey other = scheduledNotifications w !! taskKey other
  ∧ scheduledNotifications w' !! reminderKey other
      = scheduledNotifications w !! reminderKey other
  ∧ isTaskScheduled other w' = isTaskScheduled other w
  ∧ (∀ h d cb, cbTaskId cb = Some other →
       (timers w' !! h = Some (d, cb) ↔ timers w !! h = Some (d, cb)))
  ∧ pendingTimers other w' = pendingTimers other w.
Proof.
  intros Hr Hne.
  apply scheduleNotification_frame;
    [by apply reachable_Inv|by apply reachable_Exclusive|assumption].
Qed.

Lemma clearNotification_frame taskId other w :
  Inv w → Exclusive w → taskId ≠ other →
  let w' := clearNotification taskId w in
  scheduledNotifications w' !! taskKey other = scheduledNotifications w !! taskKey other
  ∧ scheduledNotifications w' !! reminderKey other
      = scheduledNotifications w !! reminderKey other
  ∧ isTaskScheduled other w' = isTaskScheduled other w
  ∧ (∀ h d cb, cbTaskId cb = Some other →
       (timers w' !! h = Some (d, cb) ↔ timers w !! h = Some (d, cb)))
  ∧ pendingTimers other w' = pendingTimers other w.
Proof.
  intros HI HE Hne w'.
  assert (∀ k, k = taskKey other ∨ k = reminderKey other →
               scheduledNotifications w' !! k = scheduledNotifications w !! k) as Hkeys.
  { intros k Hk. unfold w'. rewrite clearNotification_lookup by assumption.
    apply decide_False. intros [E|E]; destruct Hk as [-> | ->].
    - by apply taskKey_inj in E.
    - symmetry in E. by apply taskKey_ne_reminderKey in E.
    - by apply taskKey_ne_reminderKey in E.
    - by apply reminderKey_inj in E. }
  assert (noNewAlerts other w w') as Hfwd by apply noNewAlerts_clearNotification.
  assert (noNewAlerts other w' w) as Hbwd.
  { intros h d cb Hv Hcb. apply clearNotification_keeps; try assumption.
    rewrite Hcb. intros [= E]. congruence. }
  split; [apply Hkeys; by left|]. split; [apply Hkeys; by right|].
  split; [apply isTaskScheduled_lookup; apply Hkeys; [by left|by right]|].
  split; [|by apply pendingTimers_same].
  intros h d cb Hcb. split; intros Hv; [by apply Hfwd|by apply Hbwd].
Qed.

(** X3. Clearing one task leaves every other task alone in the same
    way. *)
Theorem clearNotification_other_task taskId other w :
  reachable w → taskId ≠ other →
  let w' := clearNotification taskId w in
  scheduledNotifications w' !! taskKey other = scheduledNotifications w !! taskKey other
  ∧ scheduledNotifications w' !! reminderKey other
      = scheduledNotifications w !! reminderKey other
  ∧ isTaskScheduled other w' = isTaskScheduled other w
  ∧ (∀ h d cb, cbTaskId cb = Some other →
       (timers w' !! h = Some (d, cb) ↔ timers w !! h = Some (d, cb)))
  ∧ pendingTimers other w' = pendingTimers other w.
Proof.
  intros Hr Hne.
  apply clearNotification_frame;
    [by apply reachable_Inv|by apply reachable_Exclusive|assumption].
Qed.

Lemma reachable_both : reachable Samples.both.
Proof. apply reach_step; [apply reachable_scheduled|exact I]. Defined.

Lemma reachable_one_timer_per_alert_witness :
  (pendingTimers 1 Samples.both ≤ 2)%nat.
Proof. apply (reachable_one_timer_per_alert Samples.both 1 reachable_both). Defined.

Lemma scheduleNotification_other_task_witness :
  isTaskScheduled 2 (scheduleNotification Scenario.task1 Samples.both) = true
  ∧ pendingTimers 2 (scheduleNotification Scenario.task1 Samples.both) = 1%nat.
Proof.
  assert (task_id Scenario.task1 ≠ 2) as Hne by discriminate.
  destruct (scheduleNotification_other_task Scenario.task1 2 Samples.both
              reachable_both Hne) as (_ & _ & Hs & _ & Hp).
  split; [by rewrite Hs|]. rewrite Hp. by vm_compute.
Defined.

Lemma clearNotification_other_task_witness :
  isTaskScheduled 2 (clearNotification 1 Samples.both) = true
  ∧ pendingTimers 2 (clearNotification 1 Samples.both) = 1%nat.
Proof.
  assert (1 ≠ 2) as Hne by discriminate.
  destruct (clearNotification_other_task 1 2 Samples.both reachable_both Hne)
    as (_ & _ & Hs & _ & Hp).
  split; [by rewrite Hs|]. rewrite Hp. by vm_compute.
Defined.

(** X4. Once [clearNotification(id)] has run, no alert of that task is
    pending, and none becomes pending whatever happens next (timers firing,
    time passing, other tasks being scheduled or cleared, permission
    changes), until [scheduleNotification] is called for that id again. *)
Theorem cleared_alert_stays_cleared taskId events w :
  reachable w → Forall (λ e, ¬ schedules taskId e) events →
  let w' := run events (clearNotification taskId w) in
  pendingTimers taskId w' = 0%nat
  ∧ ∀ h d cb, timers w' !! h = Some (d, cb) → cbTaskId cb ≠ Some taskId.
Proof.
  intros Hr Hev w'. apply reachable_Inv in Hr.
  destruct (clearNotification_cleared taskId w Hr) as [_ H0].
  pose proof (pendingTimers_mono taskId _ _
                (noNewAlerts_run taskId events (clearNotification taskId w) Hev)) as Hle.
  fold w' in Hle.
  assert (pendingTimers taskId w' = 0%nat) as Hz by lia.
  split; [exact Hz|]. intros h d cb Hv Hcb.
  pose proof (pendingTimers_ge_1 taskId h d cb w' Hv Hcb). lia.
Qed.

Lemma cleared_alert_stays_cleared_witness :
  pendingTimers 1
    (run [EvTick 300000; EvSchedule Samples.task2; EvFire 3; EvRefresh]
         (clearNotification 1 Scenario.scheduled)) = 0%nat.
Proof.
  apply (cleared_alert_stays_cleared 1
           [EvTick 300000; EvSchedule Samples.task2; EvFire 3; EvRefresh]
           Scenario.scheduled reachable_scheduled).
  repeat constructor; simpl; try tauto. discriminate.
Defined.

(** X5. After [clearAllNotifications()] the map is empty, no task counts as
    scheduled, no alert timer of any task is pending, and the deferred
    [close] of notifications already shown is still pending. *)
Theorem clearAllNotifications_clears w :
  reachable w →
  let w' := clearAllNotifications w in
  getScheduledNotificationCount w' = 0%nat
  ∧ (∀ taskId, isTaskScheduled taskId w' = false ∧ pendingTimers taskId w' = 0%nat)
  ∧ (∀ h d n, timers w !! h = Some (d, CbClose n) →
              timers w' !! h = Some (d, CbClose n)).
Proof.
  intros Hr w'. apply reachable_Inv in Hr as HI.
  apply reachable_Exclusive in Hr as HE.
  split; [reflexivity|]. split.
  - intros taskId.
    pose proof (pendingTimers_le_entries taskId w' (Inv_clearAllNotifications w HI)) as Hle.
    unfold pendingEntries, isTaskScheduled, has in *. simpl in *.
    rewrite !lookup_empty in *.
    rewrite !bool_decide_false in * by (by intros [? ?]).
    split; [reflexivity|]. simpl in Hle. lia.
  - intros h d n Hv. simpl.
    destruct (clearAll_fold w (scheduledNotifications w)) as (_ & _ & Ht).
    apply Ht. split; [assumption|]. intros k Hk.
    by pose proof (HE k h d (CbClose n) Hk Hv).
Qed.

Lemma clearAllNotifications_clears_witness :
  getScheduledNotificationCount (clearAllNotifications Scenario.reminderFired) = 0%nat
  ∧ timers (clearAllNotifications Scenario.reminderFired) !! 3
      = Some (310000, CbClose 0).
Proof.
  destruct (clearAllNotifications_clears Scenario.reminderFired reachable_reminderFired)
    as (Hc & _ & Hk).
  split; [exact Hc|]. apply Hk. reflexivity.
Defined.

(** ** What a firing alert shows *)

(** X6. When the due-now timer of a task fires with the flag set and the
    platform accepting the constructor, the callback completes: a
    notification tagged [task-<id>-due] that requires interaction is open,
    the task's own key has left the map, the timer is gone, and a [close]
    is pending twenty seconds later which, once fired, closes that
    notification. *)
Theorem due_now_alert_shown h due task w :
  reachable w →
  timers w !! h = Some (due, CbExact task) →
  permissionGranted w = true → ctorThrows w = false →
  let n := length (notifications w) in
  let tag := "task-" +:+ pretty (task_id task) +:+ "-due" in
  ∃ w', fireTimer h w = Ok tt w'
    ∧ notifications w' = notifications w ++ [mkNotif tag true true]
    ∧ scheduledNotifications w' !! taskKey (task_id task) = None
    ∧ timers w' !! h = None
    ∧ timers w' !! nextHandle w = Some (clock w + 20000, CbClose n)
    ∧ notifications (worldOf (fireTimer (nextHandle w) w')) !! n
        = Some (mkNotif tag true false).
Proof.
  intros Hr Hh Hp Hc n tag. apply reachable_Inv in Hr.
  pose proof (inv_timers _ Hr _ _ Hh) as Hb.
  unfold fireTimer. rewrite Hh. simpl runCallback.
  unfold showExactTimeNotification, newNotification. simpl.
  rewrite Hp, Hc. simpl. eexists. split; [reflexivity|]. simpl.
  split; [reflexivity|]. split; [apply lookup_delete_eq|].
  split; [rewrite lookup_insert_ne by lia; apply lookup_delete_eq|].
  split; [apply lookup_insert_eq|].
  rewrite lookup_insert_eq. simpl.
  rewrite list_lookup_alter_eq. by rewrite list_lookup_middle.
Qed.

Lemma due_now_alert_shown_witness :
  ∃ w', fireTimer 2 Scenario.reminderClosed = Ok tt w'
    ∧ notifications w' !! 1%nat = Some (mkNotif "task-1-due" true true).
Proof.
  destruct (due_now_alert_shown 2 600000 Scenario.task1 Scenario.reminderClosed)
    as (w' & Hf & Hn & _).
  - apply reach_step; [apply reach_step; [apply reachable_reminderFired|]|].
    + simpl. vm_compute. discriminate.
    + by_evaluation.
  - reflexivity.
  - reflexivity.
  - reflexivity.
  - exists w'. split; [exact Hf|]. rewrite Hn. reflexivity.
Defined.

(** X7. When the reminder timer fires under the same conditions, the
    notification is tagged [task-<id>-reminder], does not require
    interaction, and its [close] is pending ten seconds later; the map is
    left as it was. *)
Theorem reminder_alert_shown h due task w :
  reachable w →
  timers w !! h = Some (due, CbReminder task) →
  permissionGranted w = true → ctorThrows w = false →
  let n := length (notifications w) in
  let tag := "task-" +:+ pretty (task_id task) +:+ "-reminder" in
  ∃ w', fireTimer h w = Ok tt w'
    ∧ notifications w' = notifications w ++ [mkNotif tag false true]
    ∧ scheduledNotifications w' = scheduledNotifications w
    ∧ timers w' !! h = None
    ∧ timers w' !! nextHandle w = Some (clock w + 10000, CbClose n)
    ∧ notifications (worldOf (fireTimer (nextHandle w) w')) !! n
        = Some (mkNotif tag false false).
Proof.
  intros Hr Hh Hp Hc n tag. apply reachable_Inv in Hr.
  pose proof (inv_timers _ Hr _ _ Hh) as Hb.
  unfold fireTimer. rewrite Hh. simpl runCallback.
  unfold showReminderNotification, newNotification. simpl.
  rewrite Hp, Hc. simpl. eexists. split; [reflexivity|]. simpl.
  split; [reflexivity|]. split; [reflexivity|].
  split; [rewrite lookup_insert_ne by lia; apply lookup_delete_eq|].
  split; [apply lookup_insert_eq|].
  rewrite lookup_insert_eq. simpl.
  rewrite list_lookup_alter_eq. by rewrite list_lookup_middle.
Qed.

Lemma reminder_alert_shown_witness :
  ∃ w', fireTimer 1 Scenario.atReminder = Ok tt w'
    ∧ notifications w' = [mkNotif "task-1-reminder" false true].
Proof.
  destruct (reminder_alert_shown 1 300000 Scenario.task1 Scenario.atReminder)
    as (w' & Hf & Hn & _).
  - apply reach_step; [apply reachable_scheduled|].
    simpl. vm_compute. discriminate.
  - reflexivity.
  - reflexivity.
  - reflexivity.
  - exists w'. split; [exact Hf|]. rewrite Hn. reflexivity.
Defined.

(** ** Permission *)

(** X8. When [refreshPermissionStatus()] finds that the platform
    permission is not granted, it answers [false] and clears the flag; from
    then on [scheduleNotification] does nothing, and a pending alert that
    fires completes without creating a notification (the due-now callback
    still removes its entry). *)
Theorem refresh_without_permission_silences p w :
  platformPermission w = Some p → p ≠ granted →
  let w' := snd (refreshPermissionStatus w) in
  fst (refreshPermissionStatus w) = false
  ∧ hasPermission w' = false
  ∧ (∀ task, scheduleNotification task w' = w')
  ∧ (∀ h, threw (fireTimer h w') = false
          ∧ length (notifications (worldOf (fireTimer h w')))
              = length (notifications w')
          ∧ ∀ due task, timers w' !! h = Some (due, CbExact task) →
              scheduledNotifications (worldOf (fireTimer h w'))
                !! taskKey (task_id task) = None).
Proof.
  intros Hp Hne w'.
  assert (w' = set_permissionGranted false w) as ->.
  { unfold w', refreshPermissionStatus, checkPermission. rewrite Hp. simpl.
    by rewrite bool_decide_false. }
  split.
  { unfold refreshPermissionStatus, checkPermission. rewrite Hp. simpl.
    by rewrite bool_decide_false. }
  split; [reflexivity|]. split; [reflexivity|].
  intros h. unfold fireTimer. simpl.
  destruct (timers w !! h) as [[d cb]|] eqn:Hh.
  - destruct cb as [t|t|n]; simpl.
    + repeat split. intros due task [=].
    + repeat split. intros due task [= _ <-]. apply lookup_delete_eq.
    + split; [reflexivity|]. split; [apply length_alter|]. intros due task [=].
  - repeat split. intros due task [=].
Qed.

Lemma refresh_without_permission_silences_witness :
  scheduleNotification Samples.task2 (snd (refreshPermissionStatus Scenario.revoked))
    = snd (refreshPermissionStatus Scenario.revoked).
Proof.
  assert (denied ≠ granted) as Hne by discriminate.
  destruct (refresh_without_permission_silences denied Scenario.revoked eq_refl Hne)
    as (_ & _ & Hs & _).
  apply Hs.
Defined.

(** X9. [testDesktopNotification()] answers [true] exactly when the
    platform permission is granted and the constructor does not throw; it
    then sets the flag (whatever it was), opens the notification tagged
    [test-notification] and defers its [close] by five seconds.  When it
    answers [false] nothing has changed; in no case does it touch
    [scheduledNotifications]. *)
Theorem testDesktopNotification_result w :
  is_Some (platformPermission w) →
  ∃ b w', testDesktopNotification w = Ok b w'
    ∧ (b = true ↔ platformPermission w = Some granted ∧ ctorThrows w = false)
    ∧ (b = true →
         hasPermission w' = true
         ∧ notifications w'
             = notifications w ++ [mkNotif "test-notification" false true]
         ∧ timers w' !! nextHandle w
             = Some (clock w + 5000, CbClose (length (notifications w))))
    ∧ (b = false → w' = w)
    ∧ scheduledNotifications w' = scheduledNotifications w.
Proof.
  intros [p Hp]. unfold testDesktopNotification, newNotification. rewrite Hp.
  destruct p.
  - destruct (ctorThrows w) eqn:Hc.
    + exists false, w. split; [reflexivity|]. split; [split; [done|by intros [_ ?]]|].
      by repeat split.
    + eexists true, _. split; [reflexivity|]. split; [by split|].
      split; [|by split]. intros _. simpl.
      split; [reflexivity|]. split; [reflexivity|]. apply lookup_insert_eq.
  - exists false, w. split; [reflexivity|]. split; [split; [done|by intros [? _]]|].
    by repeat split.
  - exists false, w. split; [reflexivity|]. split; [split; [done|by intros [? _]]|].
    by repeat split.
Qed.

Lemma testDesktopNotification_result_witness :
  ∃ b w', testDesktopNotification Scenario.refusing = Ok b w' ∧ b = false.
Proof.
  assert (is_Some (platformPermission Scenario.refusing)) as Hs by (by eexists).
  destruct (testDesktopNotification_result Scenario.refusing Hs)
    as (b & w' & Ht & Hb & _).
  exists b, w'. split; [exact Ht|].
  destruct b; [|reflexivity]. by destruct (proj1 Hb eq_refl) as [_ Hc].
Defined.

(** X10. [requestPermission()] never resolves to [true] without the
    platform permission being granted and the flag being set: neither when
    it returns at once, nor after the prompt, where it resolves to [true]
    exactly when the user's answer is [granted]. *)
Theorem requestPermission_true_sets_flag w :
  is_Some (platformPermission w) →
  (∀ w', requestPermission w = Returned true w' →
         platformPermission w = Some granted ∧ hasPermission w' = true
         ∧ sameBooks w w')
  ∧ (∀ reply,
       let r := requestPermission_resume reply (promptSettles reply w) in
       (fst r = true ↔ reply = Some granted)
       ∧ (fst r = true →
            hasPermission (snd r) = true
            ∧ platformPermission (snd r) = Some granted
            ∧ sameBooks w (snd r))).
Proof.
  intros [q Hq]. split.
  - intros w'. unfold requestPermission. rewrite Hq.
    destruct q; intros [= <-]. by repeat split.
  - intros [p|]; cbv zeta.
    + unfold requestPermission_resume, promptSettles, checkPermission.
      rewrite Hq. simpl. destruct p; simpl; split; done.
    + simpl. split; [split; discriminate|discriminate].
Qed.

Lemma requestPermission_true_sets_flag_witness :
  let w := construct (Some default) 0 false in
  hasPermission w = false
  ∧ hasPermission
      (snd (requestPermission_resume (Some granted) (promptSettles (Some granted) w)))
    = true.
Proof.
  intros w. split; [reflexivity|].
  assert (is_Some (platformPermission w)) as Hs by (by eexists).
  destruct (requestPermission_true_sets_flag w Hs) as [_ H].
  destruct (H (Some granted)) as [_ Hflag]. by apply Hflag.
Defined.

(** ** The page and the scheduler *)

(** Entries a task gets from [scheduleNotification], by its distance
    [timeDiff] from now. *)
Lemma pendingTimers_schedule task w :
  Inv w → permissionGranted w = true →
  pendingTimers (task_id task) (scheduleNotification task w)
    = pendingEntries (task_id task) (scheduleNotification task w).
Proof.
  intros HI Hp.
  pose proof (pendingTimers_le_entries (task_id task) _
                (Inv_scheduleNotification task w HI)) as Hle.
  apply Nat.le_antisymm; [exact Hle|].
  rewrite (pendingEntries_schedule task w HI Hp) in *.
  pose proof (scheduleNotification_far task w Hp) as Hfar.
  pose proof (scheduleNotification_near task w Hp) as Hnear.
  cbv zeta in Hfar, Hnear.
  set (d := task_scheduledDate task - clock w) in *.
  destruct (d <? 0) eqn:Hneg.
  - apply Z.ltb_lt in Hneg.
    replace (5 * 60 * 1000 <? d) with false by (symmetry; apply Z.ltb_ge; lia).
    simpl. lia.
  - apply Z.ltb_ge in Hneg. destruct (5 * 60 * 1000 <? d) eqn:Hfar'.
    + apply Z.ltb_lt in Hfar'. destruct (Hfar Hfar') as (_ & _ & Trem & Tex).
      assert (nextHandle w ≠ nextHandle w + 1) as Hne by lia.
      exact (pendingTimers_ge_2 (task_id task) _ _ _ _ _ _ _
               Hne Trem eq_refl Tex eq_refl).
    + apply Z.ltb_ge in Hfar'. destruct (Hnear (conj Hneg Hfar')) as (_ & Tex).
      exact (pendingTimers_ge_1 (task_id task) _ _ _ _ Tex eq_refl).
Qed.

(** X11. Ticking a task off and on again: [toggleTask] on an incomplete
    task asks the server to set [completed] and leaves nothing pending for
    it; [toggleTask] on the task as it then stands (completed) asks to unset
    it and arms exactly what [scheduleNotification] would have armed in the
    first place. *)
Theorem toggleTask_round_trip task w :
  reachable w → permissionGranted w = true → task_completed task = false →
  let off := Home.toggleTask task w in
  let task' := mkTask (task_id task) (task_title task) (task_scheduledDate task)
                 (task_priority task) (task_category task) true
                 (task_createdAt task) in
  let on := Home.toggleTask task' (snd off) in
  fst off = Home.PatchCompleted (task_id task) true
  ∧ isTaskScheduled (task_id task) (snd off) = false
  ∧ pendingTimers (task_id task) (snd off) = 0%nat
  ∧ fst on = Home.PatchCompleted (task_id task) false
  ∧ pendingEntries (task_id task) (snd on)
      = pendingEntries (task_id task) (scheduleNotification task w)
  ∧ pendingTimers (task_id task) (snd on)
      = pendingTimers (task_id task) (scheduleNotification task w).
Proof.
  intros Hr Hp Hc. cbv zeta. unfold Home.toggleTask. rewrite Hc. simpl.
  apply reachable_Inv in Hr.
  destruct (clearNotification_cleared (task_id task) w Hr) as [Hs Ht].
  pose proof (Inv_clearNotification (task_id task) w Hr) as HI1.
  destruct (clearNotification_fields (task_id task) w) as (Hg & _ & Hclk & _).
  rewrite Hp in Hg.
  set (task' := mkTask _ _ _ _ _ true _).
  split; [reflexivity|]. split; [exact Hs|]. split; [exact Ht|].
  split; [reflexivity|].
  assert (pendingEntries (task_id task)
            (scheduleNotification task' (clearNotification (task_id task) w))
          = pendingEntries (task_id task) (scheduleNotification task w)) as He.
  { rewrite (pendingEntries_schedule task w Hr Hp).
    pose proof (pendingEntries_schedule task' _ HI1 Hg) as E.
    change (task_id task') with (task_id task) in E.
    change (task_scheduledDate task') with (task_scheduledDate task) in E.
    rewrite E. by rewrite Hclk. }
  split; [exact He|].
  rewrite (pendingTimers_schedule task w Hr Hp).
  pose proof (pendingTimers_schedule task' _ HI1 Hg) as E.
  change (task_id task') with (task_id task) in E.
  rewrite E. exact He.
Qed.

Lemma toggleTask_round_trip_witness :
  let off := Home.toggleTask Scenario.task1 Scenario.scheduled in
  let done1 := mkTask 1 "Write report" 600000 "high" "work" true 0 in
  isTaskScheduled 1 (snd off) = false
  ∧ pendingTimers 1 (snd (Home.toggleTask done1 (snd off))) = 2%nat.
Proof.
  destruct (toggleTask_round_trip Scenario.task1 Scenario.scheduled
              reachable_scheduled eq_refl eq_refl) as (_ & Hs & _ & _ & _ & Ht).
  split; [exact Hs|]. etransitivity; [exact Ht|]. by vm_compute.
Defined.

(** *** Scheduling a whole list *)

Lemma NoDup_ids_filter (P : Task → Prop) `{!∀ t, Decision (P t)} (l : list Task) :
  NoDup (task_id <$> l) → NoDup (task_id <$> filter P l).
Proof.
  induction l as [|t l IH]; [done|]. rewrite fmap_cons, NoDup_cons.
  intros [Hnot Hnd]. rewrite filter_cons. destruct (decide (P t)); [|by apply IH].
  rewrite fmap_cons. apply NoDup_cons. split; [|by apply IH].
  intros Hin. apply Hnot. apply list_elem_of_fmap in Hin as (x & Hx & Hin).
  apply list_elem_of_filter in Hin as [_ Hin].
  apply list_elem_of_fmap. eauto.
Qed.

Lemma ids_unique (l : list Task) x y :
  NoDup (task_id <$> l) → x ∈ l → y ∈ l → task_id x = task_id y → x = y.
Proof.
  induction l as [|t l IH]; [by intros _ ?%elem_of_nil|].
  rewrite fmap_cons, NoDup_cons. intros [Hnot Hnd] Hx Hy Heq.
  apply elem_of_cons in Hx as [->|Hx]; apply elem_of_cons in Hy as [->|Hy].
  - reflexivity.
  - exfalso. apply Hnot. rewrite Heq. by apply list_elem_of_fmap_2.
  - exfalso. apply Hnot. rewrite <- Heq. by apply list_elem_of_fmap_2.
  - by apply IH.
Qed.

Lemma pendingEntries_lookup taskId w w' :
  scheduledNotifications w' !! taskKey taskId = scheduledNotifications w !! taskKey taskId →
  scheduledNotifications w' !! reminderKey taskId
    = scheduledNotifications w !! reminderKey taskId →
  pendingEntries taskId w' = pendingEntries taskId w.
Proof. intros Ht Hr. unfold pendingEntries, has. by rewrite Ht, Hr. Qed.

Lemma scheduleNotification_list (l : list Task) w :
  Inv w → Exclusive w → permissionGranted w = true → NoDup (task_id <$> l) →
  let w' := foldl (λ acc task, scheduleNotification task acc) w l in
  (∀ task, task ∈ l →
     pendingEntries (task_id task) w' = expectedAlerts (clock w) task
     ∧ pendingTimers (task_id task) w' = expectedAlerts (clock w) task)
  ∧ (∀ other, other ∉ task_id <$> l →
       scheduledNotifications w' !! taskKey other
         = scheduledNotifications w !! taskKey other
       ∧ scheduledNotifications w' !! reminderKey other
           = scheduledNotifications w !! reminderKey other
       ∧ pendingTimers other w' = pendingTimers other w).
Proof.
  revert w. induction l as [|t l IH]; intros w HI HE Hp Hnd; cbv zeta.
  - split; [by intros task ?%elem_of_nil|]. by intros other _.
  - rewrite fmap_cons, NoDup_cons in Hnd. destruct Hnd as [Hnot Hnd]. simpl.
    set (w1 := scheduleNotification t w).
    pose proof (Inv_scheduleNotification t w HI) as HI1.
    pose proof (Exclusive_scheduleNotification t w HI HE) as HE1.
    destruct (scheduleNotification_fields t w) as [Hp1 Hc1]. rewrite Hp in Hp1.
    destruct (IH w1 HI1 HE1 Hp1 Hnd) as [IHin IHout]. fold w1 in Hp1, Hc1.
    rewrite Hc1 in IHin. split.
    + intros task Hin. apply elem_of_cons in Hin as [->|Hin]; [|by apply IHin].
      destruct (IHout (task_id t) Hnot) as (Kt & Kr & Kp).
      rewrite Kp, (pendingEntries_lookup _ _ _ Kt Kr).
      unfold w1. rewrite (pendingTimers_schedule t w HI Hp).
      by rewrite (pendingEntries_schedule t w HI Hp).
    + intros other Hother. apply not_elem_of_cons in Hother as [Hne Hother].
      destruct (IHout other Hother) as (Kt & Kr & Kp).
      destruct (scheduleNotification_frame t other w HI HE (not_eq_sym Hne))
        as (Ft & Fr & _ & _ & Fp).
      fold w1 in Ft, Fr, Fp. rewrite Kt, Kr, Kp. by repeat split.
Qed.

(** X12. The effect that reschedules the list: with permission, and ids
    that are pairwise different, afterwards every incomplete task of the
    list has exactly the alerts its due time calls for (entries and live
    timers alike), while nothing is armed or cancelled for the completed
    ones.  Without [hasNotificationPermission] the effect does nothing. *)
Theorem scheduleEffect_schedules_each tasks w :
  reachable w → permissionGranted w = true → NoDup (task_id <$> tasks) →
  let w' := Home.scheduleEffect true tasks w in
  Home.scheduleEffect false tasks w = w
  ∧ ∀ task, task ∈ tasks →
      (task_completed task = false →
         pendingEntries (task_id task) w' = expectedAlerts (clock w) task
         ∧ pendingTimers (task_id task) w' = expectedAlerts (clock w) task)
      ∧ (task_completed task = true →
           isTaskScheduled (task_id task) w' = isTaskScheduled (task_id task) w
           ∧ pendingTimers (task_id task) w' = pendingTimers (task_id task) w).
Proof.
  intros Hr Hp Hnd w'. split; [reflexivity|].
  apply reachable_Inv in Hr as HI. apply reachable_Exclusive in Hr as HE.
  pose proof (NoDup_ids_filter (λ t, task_completed t = false) tasks Hnd) as Hnd'.
  destruct (scheduleNotification_list _ w HI HE Hp Hnd') as [Hin Hout].
  intros task Htask. split; intros Hc.
  - apply Hin. by apply list_elem_of_filter.
  - destruct (Hout (task_id task)) as (Kt & Kr & Kp).
    + intros Hmem. apply list_elem_of_fmap in Hmem as (x & Hx & Hmem).
      apply list_elem_of_filter in Hmem as [Hxc Hmem].
      pose proof (ids_unique tasks task x Hnd Htask Hmem Hx). congruence.
    + split; [by apply isTaskScheduled_lookup|exact Kp].
Qed.

Lemma scheduleEffect_schedules_each_witness :
  let tasks := [Samples.done3; Scenario.task1; Samples.task2] in
  pendingTimers 1 (Home.scheduleEffect true tasks Scenario.start) = 2%nat
  ∧ pendingTimers 2 (Home.scheduleEffect true tasks Scenario.start) = 1%nat
  ∧ isTaskScheduled 3 (Home.scheduleEffect true tasks Scenario.start) = false.
Proof.
  intros tasks.
  assert (NoDup (task_id <$> tasks)) as Hnd.
  { apply (bool_decide_unpack _). by vm_compute. }
  pose proof (scheduleEffect_schedules_each tasks Scenario.start
                (reach_construct _ _ _) eq_refl Hnd) as [_ H].
  assert (Scenario.task1 ∈ tasks) as M1 by (right; left).
  assert (Samples.task2 ∈ tasks) as M2 by (right; right; left).
  assert (Samples.done3 ∈ tasks) as M3 by left.
  destruct (H _ M1) as [H1 _]. destruct (H1 eq_refl) as [_ T1].
  destruct (H _ M2) as [H2 _]. destruct (H2 eq_refl) as [_ T2].
  destruct (H _ M3) as [_ H3]. destruct (H3 eq_refl) as [S3 _].
  split; [exact T1|]. split; [exact T2|]. exact S3.
Defined.

(** *** Status labels and counters *)

Lemma hoursDiff_lt_2 (timeDiff : Z) :
  QArith_base.Qlt
    (QArith_base.Qdiv (QArith_base.inject_Z timeDiff)
                      (QArith_base.inject_Z (1000 * 60 * 60)))
    (QArith_base.inject_Z 2)
  ↔ timeDiff < 2 * 60 * 60 * 1000.
Proof.
  unfold QArith_base.Qlt, QArith_base.Qdiv, QArith_base.Qmult, QArith_base.Qinv,
    QArith_base.inject_Z. simpl. lia.
Qed.

Lemma getTaskStatus_cases_aux now task :
  let timeDiff := task_scheduledDate task - now in
  (Home.getTaskStatus now task = "completed" ↔ task_completed task = true)
  ∧ (Home.getTaskStatus now task = "overdue"
       ↔ task_completed task = false ∧ timeDiff < 0)
  ∧ (Home.getTaskStatus now task = "due-soon"
       ↔ task_completed task = false ∧ 0 ≤ timeDiff < 2 * 60 * 60 * 1000)
  ∧ (Home.getTaskStatus now task = "scheduled"
       ↔ task_completed task = false ∧ 2 * 60 * 60 * 1000 ≤ timeDiff).
Proof.
  cbv zeta. unfold Home.getTaskStatus.
  destruct (task_completed task).
  { split_and!; split; intros; destruct_and?; done. }
  destruct (task_scheduledDate task - now <? 0) eqn:Hneg.
  { apply Z.ltb_lt in Hneg.
    split_and!; split; intros; destruct_and?; try done; try lia. }
  apply Z.ltb_ge in Hneg.
  destruct (QArith_base.Qlt_le_dec _ _) as [Hlt|Hge].
  - apply (proj1 (hoursDiff_lt_2 _)) in Hlt.
    split_and!; split; intros; destruct_and?;
      try done; try lia; split; (done || lia).
  - assert (¬ task_scheduledDate task - now < 2 * 60 * 60 * 1000) as Hn.
    { intros Hlt. apply (proj2 (hoursDiff_lt_2 _)) in Hlt.
      by apply QArith_base.Qlt_not_le in Hlt. }
    split_and!; split; intros; destruct_and?;
      try done; try lia; split; (done || lia).
Qed.

(** X13. [getTaskStatus] partitions the tasks: ["completed"] for a completed
    task whatever its date; otherwise ["overdue"] when the due instant has
    passed, ["due-soon"] when it is less than two hours ahead (the instant
    itself included), and ["scheduled"] from two hours on. *)
Theorem getTaskStatus_cases now task :
  let timeDiff := task_scheduledDate task - now in
  (Home.getTaskStatus now task = "completed" ↔ task_completed task = true)
  ∧ (Home.getTaskStatus now task = "overdue"
       ↔ task_completed task = false ∧ timeDiff < 0)
  ∧ (Home.getTaskStatus now task = "due-soon"
       ↔ task_completed task = false ∧ 0 ≤ timeDiff < 2 * 60 * 60 * 1000)
  ∧ (Home.getTaskStatus now task = "scheduled"
       ↔ task_completed task = false ∧ 2 * 60 * 60 * 1000 ≤ timeDiff).
Proof. apply getTaskStatus_cases_aux. Qed.

(** X14. The label and the scheduler agree: with permission, an incomplete
    task is scheduled by [scheduleNotification] exactly when the page, at
    the same instant, does not label it ["overdue"]. *)
Theorem overdue_label_iff_nothing_scheduled task w :
  reachable w → permissionGranted w = true → task_completed task = false →
  (isTaskScheduled (task_id task) (scheduleNotification task w) = false
     ↔ Home.getTaskStatus (clock w) task = "overdue")
  ∧ (isTaskScheduled (task_id task) (scheduleNotification task w) = true
     ↔ Home.getTaskStatus (clock w) task = "due-soon"
       ∨ Home.getTaskStatus (clock w) task = "scheduled").
Proof.
  intros Hr Hp Hc. apply reachable_Inv in Hr.
  destruct (scheduleNotification_has task w Hr Hp) as [Ht Hrem]. cbv zeta in Ht, Hrem.
  destruct (getTaskStatus_cases_aux (clock w) task) as (_ & Ho & Hd & Hs).
  unfold isTaskScheduled. rewrite Ht, Hrem.
  rewrite Ho, Hd, Hs.
  destruct (task_scheduledDate task - clock w <? 0) eqn:Hneg; simpl.
  - apply Z.ltb_lt in Hneg.
    replace (5 * 60 * 1000 <? task_scheduledDate task - clock w) with false
      by (symmetry; apply Z.ltb_ge; lia).
    split; split; try done; intros [[_ ?]|[_ ?]]; lia.
  - apply Z.ltb_ge in Hneg. split; split; try done.
    + intros [_ ?]. lia.
    + intros _.
      destruct (decide (task_scheduledDate task - clock w < 2 * 60 * 60 * 1000));
        [left|right]; split; (done || lia).
Qed.

Lemma overdue_label_iff_nothing_scheduled_witness :
  isTaskScheduled 1 (scheduleNotification Scenario.task1 Scenario.start) = true
  ∧ Home.getTaskStatus 0 Scenario.task1 = "due-soon".
Proof.
  destruct (overdue_label_iff_nothing_scheduled Scenario.task1 Scenario.start
              (reach_construct _ _ _) eq_refl eq_refl) as [_ [_ H]].
  split; [apply H; by left|reflexivity].
Defined.

(** X15. The counters of the page add up: completed and pending tasks
    make up the total, the overdue ones are among the pending ones and are
    exactly the tasks labelled ["overdue"], and the three list filters show
    the completed tasks, the pending tasks, and everything. *)
Theorem counters_add_up now tasks :
  (Home.completedTasks tasks + Home.pendingTasks tasks = Home.totalTasks tasks)%nat
  ∧ (Home.overdueTasks now tasks ≤ Home.pendingTasks tasks)%nat
  ∧ Home.overdueTasks now tasks
      = length (filter (λ t, Home.getTaskStatus now t = "overdue") tasks)
  ∧ length (Home.filteredTasks Home.completed tasks) = Home.completedTasks tasks
  ∧ length (Home.filteredTasks Home.pending tasks) = Home.pendingTasks tasks
  ∧ Home.filteredTasks Home.all tasks = tasks.
Proof.
  unfold Home.completedTasks, Home.pendingTasks, Home.totalTasks,
    Home.overdueTasks, Home.filteredTasks.
  split_and!.
  - induction tasks as [|t tasks IH]; [reflexivity|].
    rewrite !filter_cons. destruct (task_completed t); simpl in *; lia.
  - induction tasks as [|t tasks IH]; [reflexivity|].
    rewrite !filter_cons.
    destruct (decide (task_completed t = false ∧ task_scheduledDate t < now))
      as [[Hc _]|_];
      destruct (decide (task_completed t = false)); simpl; try lia.
    contradiction.
  - f_equal. apply list_filter_iff. intros t.
    destruct (getTaskStatus_cases_aux now t) as (_ & -> & _). split.
    + intros [? ?]. split; [done|lia].
    + intros [? ?]. split; [done|lia].
  - reflexivity.
  - f_equal. apply list_filter_iff. intros t. simpl.
    by destruct (task_completed t).
  - induction tasks as [|t tasks IH]; [reflexivity|].
    rewrite filter_cons_True by reflexivity. by rewrite IH.
Qed.

(** ** The table *)

Lemma filter_id_fresh (rows : list Task) (id : Z) :
  id ∉ task_id <$> rows → filter (λ t, task_id t = id) rows = [].
Proof.
  induction rows as [|t rows IH]; [done|]. intros Hnot.
  apply not_elem_of_cons in Hnot as [Hne Hnot].
  rewrite filter_cons_False by congruence. by apply IH.
Qed.

Lemma filter_other_fresh (rows : list Task) (id : Z) :
  id ∉ task_id <$> rows → filter (λ t, task_id t ≠ id) rows = rows.
Proof.
  induction rows as [|t rows IH]; [done|]. intros Hnot.
  apply not_elem_of_cons in Hnot as [Hne Hnot].
  rewrite filter_cons_True by congruence. by rewrite IH.
Qed.

Lemma serial_fresh db : DbOk db → db_serial db ∉ task_id <$> db_rows db.
Proof.
  intros [_ Hlt] Hin. apply list_elem_of_fmap in Hin as (t & Ht & Hin).
  rewrite Forall_forall in Hlt. apply Hlt in Hin. lia.
Qed.

(** When [createTask] goes through, and what it returns then. *)
Lemma createTask_Some insertTask db task db' :
  createTask insertTask db = Some (task, db') ↔
  db_online db = true
  ∧ ∃ d, insert_scheduledDate insertTask = Some d
      ∧ task = mkTask (db_serial db) (insert_title insertTask) d
                 (orElse (insert_priority insertTask) "medium")
                 (orElse (insert_category insertTask) "personal")
                 false (db_now db)
      ∧ isInt4 (db_serial db) = true ∧ isTimestamp d = true
      ∧ isText (insert_title insertTask) = true
      ∧ isText (orElse (insert_priority insertTask) "medium") = true
      ∧ isText (orElse (insert_category insertTask) "personal") = true
      ∧ db' = mkDb (db_rows db ++ [task]) (db_serial db + 1) (db_now db) true.
Proof.
  unfold createTask. cbv zeta.
  cbn [task_id task_title task_priority task_category]. split.
  - destruct (db_online db) eqn:Hon; [|discriminate]. cbn [negb].
    destruct (insert_scheduledDate insertTask) as [d|]; [|discriminate].
    destruct (isInt4 (db_serial db)) eqn:H1; [|discriminate].
    destruct (isTimestamp d) eqn:H2; [|discriminate].
    destruct (isText (insert_title insertTask)) eqn:H3; [|discriminate].
    destruct (isText (orElse (insert_priority insertTask) "medium")) eqn:H4;
      [|discriminate].
    destruct (isText (orElse (insert_category insertTask) "personal")) eqn:H5;
      [|discriminate].
    cbn [andb]. intros [= <- <-]. split; [reflexivity|]. exists d.
    by repeat split.
  - intros (Hon & d & -> & -> & -> & -> & -> & -> & -> & ->).
    by rewrite Hon.
Qed.

Lemma deleteTask_Some id db success db' :
  deleteTask id db = Some (success, db') ↔
  db_online db = true ∧ isInt4 id = true
  ∧ success = bool_decide (0 < length (filter (λ t, task_id t = id) (db_rows db)))%nat
  ∧ db' = mkDb (filter (λ t, task_id t ≠ id) (db_rows db))
               (db_serial db) (db_now db) true.
Proof.
  unfold deleteTask. cbv zeta. split.
  - destruct (db_online db) eqn:Hon; [|discriminate].
    destruct (isInt4 id); [|discriminate]. simpl.
    intros [= <- <-]. by repeat split.
  - intros (Hon & -> & -> & ->). by rewrite Hon.
Qed.

Lemma getTaskById_eq id db :
  db_online db = true → isInt4 id = true →
  getTaskById id db = Some (head (filter (λ t, task_id t = id) (db_rows db))).
Proof. intros Hon Hint. unfold getTaskById. by rewrite Hon, Hint. Qed.

Lemma getTaskById_rows id db db' :
  db_online db' = db_online db →
  filter (λ t, task_id t = id) (db_rows db') = filter (λ t, task_id t = id) (db_rows db) →
  getTaskById id db' = getTaskById id db.
Proof. intros Hon Hrows. unfold getTaskById. by rewrite Hon, Hrows. Qed.

Lemma DbOk_createTask insertTask db task db' :
  DbOk db → createTask insertTask db = Some (task, db') → DbOk db'.
Proof.
  intros Hok. pose proof (serial_fresh db Hok) as Hfresh. destruct Hok as [Hnd Hlt].
  intros Hc. apply createTask_Some in Hc as (_ & d & _ & -> & _ & _ & _ & _ & _ & ->).
  split; simpl.
  - rewrite fmap_app. apply NoDup_app. split; [assumption|]. split.
    + intros x Hx Hx'. simpl in Hx'. apply list_elem_of_singleton in Hx' as ->.
      contradiction.
    + simpl. apply NoDup_singleton.
  - apply Forall_app. split.
    + eapply Forall_impl; [exact Hlt|]. simpl. intros. lia.
    + repeat constructor. simpl. lia.
Qed.

Lemma DbOk_deleteTask id db success db' :
  DbOk db → deleteTask id db = Some (success, db') → DbOk db'.
Proof.
  intros [Hnd Hlt] Hd. apply deleteTask_Some in Hd as (_ & _ & _ & ->).
  split; simpl.
  - by apply NoDup_ids_filter.
  - apply Forall_forall. intros t Ht. apply list_elem_of_filter in Ht as [_ Ht].
    rewrite Forall_forall in Hlt. by apply Hlt.
Qed.

(** X16. A created task can be read back: on a table whose ids are
    distinct and below the [serial] counter, [createTask] gives the new row
    the counter's value as id, [completed = false], the database time as
    [createdAt], and ["medium"] / ["personal"] where priority or category
    are empty; [getTaskById] of that id then returns the row, every other
    id reads as before, and the table is still well formed. *)
Theorem createTask_then_getTaskById insertTask db task db' :
  DbOk db → createTask insertTask db = Some (task, db') →
  DbOk db'
  ∧ task_id task = db_serial db
  ∧ task_title task = insert_title insertTask
  ∧ Some (task_scheduledDate task) = insert_scheduledDate insertTask
  ∧ task_priority task = orElse (insert_priority insertTask) "medium"
  ∧ task_category task = orElse (insert_category insertTask) "personal"
  ∧ task_completed task = false
  ∧ task_createdAt task = db_now db
  ∧ db_rows db' = db_rows db ++ [task]
  ∧ getTaskById (task_id task) db' = Some (Some task)
  ∧ ∀ id, id ≠ task_id task → getTaskById id db' = getTaskById id db.
Proof.
  intros Hok Hc. pose proof (DbOk_createTask _ _ _ _ Hok Hc) as Hok'.
  pose proof (serial_fresh db Hok) as Hfresh.
  apply createTask_Some in Hc as (Hon & d & Hd & -> & Hint & _ & _ & _ & _ & ->).
  simpl. split; [exact Hok'|]. split; [reflexivity|]. split; [reflexivity|].
  split; [by rewrite Hd|]. do 5 (split; [reflexivity|]). split.
  - rewrite getTaskById_eq by done. simpl.
    rewrite filter_app, (filter_id_fresh _ _ Hfresh). simpl.
    by rewrite filter_cons_True by reflexivity.
  - intros id Hne. apply getTaskById_rows; [by rewrite Hon|]. simpl.
    rewrite filter_app.
    rewrite (filter_cons_False _ _ []) by (simpl; congruence).
    by rewrite filter_nil, app_nil_r.
Qed.

Lemma createTask_then_getTaskById_witness :
  ∃ task db',
    createTask (mkInsertTask "Buy milk" (Some 70) "" "shopping") Samples.twoRows
      = Some (task, db')
    ∧ getTaskById 3 db' = Some (Some task)
    ∧ task_priority task = "medium".
Proof.
  assert (DbOk Samples.twoRows) as Hok.
  { split; [apply (bool_decide_unpack _); by vm_compute|].
    repeat constructor; simpl; lia. }
  destruct (createTask (mkInsertTask "Buy milk" (Some 70) "" "shopping")
              Samples.twoRows) as [[task db']|] eqn:Hc; [|discriminate Hc].
  exists task, db'. split; [reflexivity|].
  destruct (createTask_then_getTaskById _ _ _ _ Hok Hc)
    as (_ & Hi & _ & _ & Hp & _ & _ & _ & _ & Hg & _).
  split; [|exact Hp]. change 3 with (db_serial Samples.twoRows).
  rewrite <- Hi. exact Hg.
Defined.

Lemma deleteTask_removes_row_aux id db success db' :
  DbOk db → deleteTask id db = Some (success, db') →
  DbOk db'
  ∧ (success = true ↔ id ∈ task_id <$> db_rows db)
  ∧ getTaskById id db' = Some None
  ∧ (∀ other, other ≠ id → getTaskById other db' = getTaskById other db)
  ∧ (success = true → S (length (db_rows db')) = length (db_rows db))
  ∧ (success = false → db' = db).
Proof.
  intros Hok Hd. pose proof (DbOk_deleteTask _ _ _ _ Hok Hd) as Hok'.
  destruct Hok as [Hnd _].
  apply deleteTask_Some in Hd as (Hon & Hint & -> & ->).
  assert (∀ rows : list Task, NoDup (task_id <$> rows) →
            (id ∈ task_id <$> rows →
               length (filter (λ t, task_id t = id) rows) = 1%nat
               ∧ S (length (filter (λ t, task_id t ≠ id) rows)) = length rows)
            ∧ (id ∉ task_id <$> rows →
               filter (λ t, task_id t = id) rows = [])) as Hcount.
  { clear. induction rows as [|t rows IH]; intros Hnd.
    - split; [by intros ?%elem_of_nil|done].
    - rewrite fmap_cons in Hnd. apply NoDup_cons in Hnd as [Hnot Hnd].
      destruct (IH Hnd) as [IHin IHout]. split.
      + rewrite fmap_cons. intros Hin. rewrite !filter_cons.
        destruct (decide (task_id t = id)) as [<-|Hne].
        * rewrite (proj2 (IH Hnd) Hnot).
          destruct (decide (task_id t ≠ task_id t)); [done|].
          rewrite (filter_other_fresh _ _ Hnot). by split.
        * apply elem_of_cons in Hin as [?|Hin]; [congruence|].
          destruct (decide (task_id t ≠ id)); [|done].
          destruct (IHin Hin) as [H1 H2]. simpl. split; [exact H1|lia].
      + intros Hnot'. by apply filter_id_fresh. }
  destruct (Hcount _ Hnd) as [Hin Hout].
  split; [exact Hok'|]. split.
  { rewrite bool_decide_eq_true. split.
    - intros Hlen. destruct (decide (id ∈ task_id <$> db_rows db)); [done|].
      rewrite Hout in Hlen by assumption. simpl in Hlen. lia.
    - intros Hmem. destruct (Hin Hmem) as [-> _]. lia. }
  split.
  { rewrite getTaskById_eq by done. simpl. f_equal.
    rewrite filter_id_fresh; [reflexivity|].
    intros Hmem. apply list_elem_of_fmap in Hmem as (t & -> & Ht).
    by apply list_elem_of_filter in Ht as [Hne _]. }
  split.
  { intros other Hne. apply getTaskById_rows; [by rewrite Hon|]. simpl.
    rewrite list_filter_filter. apply list_filter_iff. intros t. split.
    - by intros [? _].
    - intros Ht. split; [exact Ht|congruence]. }
  split.
  { intros Hs. apply bool_decide_eq_true in Hs. simpl.
    destruct (decide (id ∈ task_id <$> db_rows db)) as [Hmem|Hmem].
    - by destruct (Hin Hmem) as [_ ->].
    - rewrite (Hout Hmem) in Hs. simpl in Hs. lia. }
  intros Hs. apply bool_decide_eq_false in Hs.
  assert (id ∉ task_id <$> db_rows db) as Hmem.
  { intros Hmem. destruct (Hin Hmem) as [Hl _]. lia. }
  rewrite (filter_other_fresh _ _ Hmem). destruct db. simpl in Hon. by rewrite Hon.
Qed.

(** X17. [deleteTask(id)] answers [true] exactly when a row has that id.
    Afterwards [getTaskById(id)] finds nothing, every other id reads as
    before, exactly one row is gone when the answer is [true], and nothing
    has changed when it is [false]. *)
Theorem deleteTask_removes_row id db success db' :
  DbOk db → deleteTask id db = Some (success, db') →
  DbOk db'
  ∧ (success = true ↔ id ∈ task_id <$> db_rows db)
  ∧ getTaskById id db' = Some None
  ∧ (∀ other, other ≠ id → getTaskById other db' = getTaskById other db)
  ∧ (success = true → S (length (db_rows db')) = length (db_rows db))
  ∧ (success = false → db' = db).
Proof. apply deleteTask_removes_row_aux. Qed.

Lemma DbOk_twoRows : DbOk Samples.twoRows.
Proof.
  split; [apply (bool_decide_unpack _); by vm_compute|].
  repeat constructor; simpl; lia.
Defined.

Lemma deleteTask_removes_row_witness :
  ∃ db', deleteTask 1 Samples.twoRows = Some (true, db')
    ∧ getTaskById 1 db' = Some None
    ∧ length (db_rows db') = 1%nat.
Proof.
  destruct (deleteTask 1 Samples.twoRows) as [[success db']|] eqn:Hd;
    [|discriminate Hd].
  destruct (deleteTask_removes_row 1 Samples.twoRows success db' DbOk_twoRows Hd)
    as (_ & Hs & Hg & _ & Hl & _).
  assert (success = true) as ->.
  { apply Hs. left. }
  exists db'. split; [reflexivity|]. split; [exact Hg|].
  specialize (Hl eq_refl). simpl in Hl. lia.
Defined.


(** Outside that range the query throws and the answer is [500]. *)
Example deleteTaskRoute_beyond_int4 :
  deleteTaskRoute 2147483648 Samples.twoRows
    = (mkResponse 500 (SendError "Failed to delete task" None), Samples.twoRows).
Proof. reflexivity. Qed.


(** ** Creating through the route *)

Lemma zStringMin1_inr msg path v s :
  zStringMin1 msg path v = inr s ↔ v = Some (JStr s) ∧ s ≠ "".
Proof.
  unfold zStringMin1, zString. split.
  - destruct v as [[| | |t| |]|]; try discriminate.
    destruct t as [|a t]; simpl; [discriminate|]. by intros [= <-].
  - intros [-> Hne]. destruct s as [|a s]; [done|reflexivity].
Qed.

Lemma zStringDefault_inr d path v s :
  zStringDefault d path v = inr s ↔ (v = None ∧ s = d) ∨ v = Some (JStr s).
Proof.
  unfold zStringDefault, zString. split.
  - destruct v as [[| | |t| |]|]; try discriminate.
    + intros [= <-]. by right.
    + intros [= <-]. by left.
  - intros [[-> ->] | ->]; reflexivity.
Qed.

Lemma zDateString_inr `{DateParser} path v d :
  zDateString path v = inr d ↔ ∃ s, v = Some (JStr s) ∧ d = Date_parse s.
Proof.
  unfold zDateString, zString. split.
  - destruct v as [[| | |t| |]|]; try discriminate. intros [= <-]. eauto.
  - intros [s [Hv Hd]]. by rewrite Hv, Hd.
Qed.

Lemma insertTaskSchema_accepts_aux `{DateParser} body v :
  insertTaskSchema_parse body = inr v ↔
  ∃ fields title date,
    body = Some (JObj fields)
    ∧ getProp "title" fields = Some (JStr title) ∧ title ≠ ""
    ∧ getProp "scheduledDate" fields = Some (JStr date)
    ∧ (getProp "priority" fields = None ∧ insert_priority v = "medium"
       ∨ getProp "priority" fields = Some (JStr (insert_priority v)))
    ∧ (getProp "category" fields = None ∧ insert_category v = "personal"
       ∨ getProp "category" fields = Some (JStr (insert_category v)))
    ∧ insert_title v = title
    ∧ insert_scheduledDate v = Date_parse date.
Proof.
  unfold insertTaskSchema_parse. split.
  - destruct body as [[| | | | |fields]|]; try discriminate.
    destruct (zStringMin1 _ _ _) as [i1|t] eqn:E1;
      destruct (zDateString _ _) as [i2|d] eqn:E2;
      destruct (zStringDefault "medium" _ _) as [i3|p] eqn:E3;
      destruct (zStringDefault "personal" _ _) as [i4|c] eqn:E4;
      try discriminate.
    intros [= <-]. simpl.
    apply zStringMin1_inr in E1 as [E1 Hne].
    apply zDateString_inr in E2 as (date & E2 & ->).
    apply zStringDefault_inr in E3. apply zStringDefault_inr in E4.
    exists fields, t, date. repeat split; assumption.
  - intros (fields & title & date & -> & Ht & Hne & Hd & Hp & Hc & Ev1 & Ev2).
    rewrite (proj2 (zStringMin1_inr _ _ _ title) (conj Ht Hne)).
    rewrite (proj2 (zDateString_inr _ _ (Date_parse date))) by eauto.
    rewrite (proj2 (zStringDefault_inr "medium" _ _ (insert_priority v)))
      by (destruct Hp as [[? ?]|?]; [left|right]; done).
    rewrite (proj2 (zStringDefault_inr "personal" _ _ (insert_category v)))
      by (destruct Hc as [[? ?]|?]; [left|right]; done).
    destruct v. simpl in *. by subst.
Qed.

(** X19. What [insertTaskSchema] lets through: exactly the objects whose
    [title] is a non-empty string, whose [scheduledDate] is a string (of any
    content), and whose [priority] and [category] are strings or absent.
    The parsed value carries the title, the date read from the string, and
    ["medium"] / ["personal"] for an absent priority / category. *)
Theorem insertTaskSchema_accepts `{DateParser} body v :
  insertTaskSchema_parse body = inr v ↔
  ∃ fields title date,
    body = Some (JObj fields)
    ∧ getProp "title" fields = Some (JStr title) ∧ title ≠ ""
    ∧ getProp "scheduledDate" fields = Some (JStr date)
    ∧ (getProp "priority" fields = None ∧ insert_priority v = "medium"
       ∨ getProp "priority" fields = Some (JStr (insert_priority v)))
    ∧ (getProp "category" fields = None ∧ insert_category v = "personal"
       ∨ getProp "category" fields = Some (JStr (insert_category v)))
    ∧ insert_title v = title
    ∧ insert_scheduledDate v = Date_parse date.
Proof.
  apply insertTaskSchema_accepts_aux.
Qed.

(** X20. A body that passes the schema and whose insert the database
    takes, sent to a well-formed table, is answered [201] with the new task;
    its id is the counter's value, the table stays well formed, and a
    following [getTasks] returns an ascending list one longer than before
    that contains the task. *)
Theorem post_then_get `{DateParser} reqBody db v task db' :
  DbOk db →
  insertTaskSchema_parse reqBody = inr v → createTask v db = Some (task, db') →
  postTasksRoute reqBody db = (mkResponse 201 (SendTask task), db')
  ∧ task_id task = db_serial db
  ∧ Some (task_scheduledDate task) = insert_scheduledDate v
  ∧ DbOk db'
  ∧ ∃ tasks, getTasks db' = Some tasks
      ∧ task ∈ tasks ∧ ascending tasks
      ∧ length tasks = S (length (db_rows db)).
Proof.
  intros Hok Hparse Hc.
  pose proof (DbOk_createTask _ _ _ _ Hok Hc) as Hok'.
  unfold postTasksRoute. rewrite Hparse, Hc.
  apply createTask_Some in Hc as (Hon & d & Hd & -> & _ & _ & _ & _ & _ & ->).
  split; [reflexivity|]. split; [reflexivity|]. split; [by rewrite Hd|].
  split; [exact Hok'|].
  unfold getTasks. simpl. eexists. split; [reflexivity|].
  split; [|split].
  - rewrite <- Array_sort_Permutation. apply elem_of_app. right. by left.
  - apply Array_sort_ascending.
  - rewrite <- Array_sort_Permutation. rewrite length_app. simpl. lia.
Qed.

(** A date that the schema accepts and the timestamp column does not: no
    row is created and the answer is [500]. *)
Example post_year_10000 :
  let body := Some (JObj [("title", JStr "Buy milk");
                          ("scheduledDate", JStr "+010000-01-01T00:00:00.000Z")]) in
  let dates : DateParser :=
    λ s, if String.eqb s "+010000-01-01T00:00:00.000Z"
         then Some 253402300800000 else None in
  @postTasksRoute dates body Samples.twoRows
    = (mkResponse 500 (SendError "Failed to create task" None), Samples.twoRows).
Proof. reflexivity. Qed.

Lemma post_then_get_witness :
  ∃ task db',
    @postTasksRoute Scenario.sampleDates Samples.validBody Samples.twoRows
      = (mkResponse 201 (SendTask task), db')
    ∧ task_id task = 3
    ∧ option_map (map task_id) (getTasks db') = Some [2; 1; 3].
Proof.
  destruct (@createTask
              (mkInsertTask "Buy milk" (Some 1735725600000) "medium" "personal")
              Samples.twoRows) as [[task db']|] eqn:Hc; [|discriminate Hc].
  destruct (@post_then_get Scenario.sampleDates Samples.validBody Samples.twoRows
              _ task db' DbOk_twoRows eq_refl Hc)
    as (Hpost & Hid & _).
  exists task, db'. split; [exact Hpost|]. split; [exact Hid|].
  vm_compute in Hc. injection Hc as _ <-. reflexivity.
Defined.

(** X21. A [scheduledDate] string that is not a date is not a validation
    error: the schema accepts the body with an invalid date, so whatever
    the route answers, it is not the [400] of a rejected body. *)
Theorem post_unparsable_date_not_rejected `{DateParser} fields title date db :
  getProp "title" fields = Some (JStr title) → title ≠ "" →
  getProp "scheduledDate" fields = Some (JStr date) → Date_parse date = None →
  getProp "priority" fields = None → getProp "category" fields = None →
  insertTaskSchema_parse (Some (JObj fields))
    = inr (mkInsertTask title None "medium" "personal")
  ∧ res_status (fst (postTasksRoute (Some (JObj fields)) db)) ≠ 400.
Proof.
  intros Ht Hne Hd Hnone Hp Hc.
  assert (insertTaskSchema_parse (Some (JObj fields))
            = inr (mkInsertTask title None "medium" "personal")) as Hparse.
  { apply insertTaskSchema_accepts_aux. exists fields, title, date. simpl.
    repeat split; try assumption; try (by left). by rewrite Hnone. }
  split; [exact Hparse|].
  unfold postTasksRoute. rewrite Hparse.
  by destruct (createTask _ db) as [[task db']|].
Qed.

Lemma post_unparsable_date_not_rejected_witness :
  res_status
    (fst (@postTasksRoute Scenario.sampleDates Samples.malformedDateBody
            Samples.twoRows)) ≠ 400.
Proof.
  assert ("Buy milk" ≠ "") as Hne by discriminate.
  exact (proj2 (@post_unparsable_date_not_rejected Scenario.sampleDates
                  [("title", JStr "Buy milk"); ("scheduledDate", JStr "tomorrow")]
                  "Buy milk" "tomorrow" Samples.twoRows
                  eq_refl Hne eq_refl eq_refl eq_refl eq_refl)).
Defined.

(** ** More about the order of [getTasks] *)

Lemma sortInsert_filter (P : Task → Prop) `{!∀ t, Decision (P t)} x l :
  (∀ y, P x → P y → ¬ 0 < byScheduledDate x y) →
  filter P (sortInsert byScheduledDate x l) = filter P (x :: l).
Proof.
  intros Htie. induction l as [|y rest IH]; [reflexivity|]. simpl.
  destruct (0 <? byScheduledDate x y) eqn:Hcmp; [|reflexivity].
  apply Z.ltb_lt in Hcmp.
  rewrite (filter_cons _ y), IH, !(filter_cons _ x), (filter_cons _ y).
  destruct (decide (P x)) as [Hx|Hx]; [|reflexivity].
  destruct (decide (P y)) as [Hy|Hy]; [|reflexivity].
  by destruct (Htie y Hx Hy).
Qed.

(** X22. [getTasks] keeps ties in row order: the tasks due at one and the
    same instant come back in the order in which the table holds them. *)
Theorem getTasks_stable db tasks (date : Z) :
  getTasks db = Some tasks →
  filter (λ t, task_scheduledDate t = date) tasks
    = filter (λ t, task_scheduledDate t = date) (db_rows db).
Proof.
  unfold getTasks. destruct (negb (db_online db)); [discriminate|].
  intros [= <-]. induction (db_rows db) as [|x rest IH]; [reflexivity|].
  simpl. rewrite sortInsert_filter.
  - rewrite !(filter_cons _ x). by rewrite IH.
  - intros y Hx Hy. unfold byScheduledDate. lia.
Qed.

Lemma getTasks_stable_witness :
  let db := mkDb [mkTask 1 "a" 50 "low" "work" false 0;
                  mkTask 2 "b" 10 "low" "work" false 0;
                  mkTask 3 "c" 50 "low" "work" false 0] 4 0 true in
  ∃ tasks, getTasks db = Some tasks
    ∧ map task_id tasks = [2; 1; 3]
    ∧ map task_id (filter (λ t, task_scheduledDate t = 50) tasks) = [1; 3].
Proof.
  intros db. eexists. split; [reflexivity|]. split; [reflexivity|].
  by rewrite (getTasks_stable db _ 50 eq_refl).
Defined.

Lemma Array_sort_fixed l : ascending l → Array_sort byScheduledDate l = l.
Proof.
  unfold ascending. induction 1 as [|x rest Hsorted IH Hall]; [reflexivity|].
  simpl. rewrite IH. destruct rest as [|y rest']; [reflexivity|]. simpl.
  apply Forall_cons in Hall as [Hxy _].
  by replace (0 <? byScheduledDate x y) with false
    by (symmetry; apply Z.ltb_ge; unfold byScheduledDate; lia).
Qed.

(** X23. When the rows are already in ascending order [getTasks] returns
    them as they are; in particular sorting the answer of [getTasks] once
    more changes nothing. *)
Theorem getTasks_sorted_rows_unchanged db tasks :
  getTasks db = Some tasks →
  (ascending (db_rows db) → tasks = db_rows db)
  ∧ Array_sort byScheduledDate tasks = tasks.
Proof.
  unfold getTasks. destruct (negb (db_online db)); [discriminate|].
  intros [= <-]. split.
  - apply Array_sort_fixed.
  - apply Array_sort_fixed, Array_sort_ascending.
Qed.

Lemma getTasks_sorted_rows_unchanged_witness :
  let db := mkDb [mkTask 2 "b" 10 "low" "work" false 0;
                  mkTask 1 "a" 50 "low" "work" false 0] 3 0 true in
  getTasks db = Some (db_rows db).
Proof.
  intros db.
  destruct (getTasks db) as [tasks|] eqn:Hg; [|discriminate Hg].
  destruct (getTasks_sorted_rows_unchanged db tasks Hg) as [H _].
  f_equal. apply H. unfold ascending. simpl.
  repeat constructor; simpl; lia.
Defined.
